(** * pyalgotrade.mtgox.tools: the Mt. Gox trade downloader

    A shallow embedding of [pyalgotrade/mtgox/tools.py] and the properties
    of its record decoder, page filter, page fetcher, range walker and
    sink.

    Conventions of the embedding.
    - Python integers are [Z]; Python floats are IEEE 754 binary64 values,
      represented by [spec_float] with the operations of [SpecFloat] at
      precision 53 and maximal exponent 1024.
    - A raw trade entry (a JSON object) is a [gmap string pyval].
    - Exceptions are the [Raise] results of the [result] monad.
    - The remote server is a function from the request number and the
      [since] cursor to the outcome of one HTTP request; the number of
      requests issued so far is threaded through the downloader.
    - The CSV file is the trace of the operations performed on it
      ([open], [write], [flush], [close]), in program order; [open] is
      taken to succeed, and a row is kept as the four values that are
      formatted into it.
    - A [while] loop is a function with fuel: [None] is a loop that has
      not ended when the fuel is used up, and more fuel never changes an
      outcome that was reached.
    - A string is a sequence of characters below 256; the strings of a
      JSON document are [unicode] objects, and such a string cannot be
      encoded for a byte stream when it has a character above 127.
    - A call to [logger] is modelled by the evaluation of its argument,
      which can raise; what is logged is not kept. *)

From Stdlib Require Import ZArith Ascii String Floats.SpecFloat.
From stdpp Require Import gmap strings pretty list fin_maps sorting.

Local Open Scope string_scope.
Local Open Scope list_scope.
Local Open Scope Z_scope.

(** ** Python values and exceptions *)

Module Py.

(** The values [json.loads] yields for the fields of a trade entry. *)
Inductive pyval :=
| PyNone
| PyInt (z : Z)
| PyStr (s : string).

#[export] Instance pyval_eq_dec : EqDecision pyval.
Proof. solve_decision. Defined.

Inductive exn :=
| KeyError (k : string)
| ValueError (s : string)
| TypeError
| AttributeError
| OverflowError
| UnicodeEncodeError
  (** [Exception(msg)] with a [str] message *)
| Failure (msg : string)
  (** [Exception(msg)] with a [unicode] message *)
| FailureU (msg : string).

#[export] Instance exn_eq_dec : EqDecision exn.
Proof. solve_decision. Defined.

Inductive result (A : Type) :=
| Ok (a : A)
| Raise (e : exn).
Arguments Ok {A} a.
Arguments Raise {A} e.

#[export] Instance result_bind : MBind result := λ A B k r,
  match r with
  | Ok a => k a
  | Raise e => Raise e
  end.

#[export] Instance result_ret : MRet result := λ A a, Ok a.

Definition is_ok {A} (r : result A) : bool :=
  match r with Ok _ => true | Raise _ => false end.

(** [d[k]] on a dictionary. *)
Definition getitem (d : gmap string pyval) (k : string) : result pyval :=
  match d !! k with
  | Some v => Ok v
  | None => Raise (KeyError k)
  end.

(** *** [str.upper] *)

Definition upper_ascii (c : ascii) : ascii :=
  let n := N_of_ascii c in
  if ((97 <=? n) && (n <=? 122))%N then ascii_of_N (n - 32) else c.

Fixpoint upper_string (s : string) : string :=
  match s with
  | EmptyString => EmptyString
  | String c s' => String (upper_ascii c) (upper_string s')
  end.

Definition upper (v : pyval) : result string :=
  match v with
  | PyStr s => Ok (upper_string s)
  | _ => Raise AttributeError
  end.

(** *** [int(x)]

    Of a [unicode] string: optional surrounding white space, an optional
    sign, optional white space and at least one decimal digit.  The
    white space below 256 is 9..13, 28..32, 133 and 160. *)

Definition is_space (c : ascii) : bool :=
  let n := N_of_ascii c in
  (((9 <=? n) && (n <=? 13)) || ((28 <=? n) && (n <=? 32))
   || (n =? 133) || (n =? 160))%N.

Definition digit_of (c : ascii) : option Z :=
  let n := N_of_ascii c in
  if ((48 <=? n) && (n <=? 57))%N then Some (Z.of_N (n - 48)) else None.

Fixpoint all_space (s : string) : bool :=
  match s with
  | EmptyString => true
  | String c s' => is_space c && all_space s'
  end.

Fixpoint lstrip (s : string) : string :=
  match s with
  | EmptyString => EmptyString
  | String c s' => if is_space c then lstrip s' else s
  end.

Fixpoint parse_digits (acc : Z) (seen : bool) (s : string) : option Z :=
  match s with
  | EmptyString => if seen then Some acc else None
  | String c s' =>
      match digit_of c with
      | Some d => parse_digits (10 * acc + d) true s'
      | None => if seen && all_space s then Some acc else None
      end
  end.

Definition parse_int (s : string) : option Z :=
  match lstrip s with
  | String "-" s' => Z.opp <$> parse_digits 0 false (lstrip s')
  | String "+" s' => parse_digits 0 false (lstrip s')
  | s' => parse_digits 0 false s'
  end.

(** *** Encoding a [unicode] string to ASCII *)

Fixpoint is_ascii (s : string) : bool :=
  match s with
  | EmptyString => true
  | String c s' => (N_of_ascii c <? 128)%N && is_ascii s'
  end.

Definition int (v : pyval) : result Z :=
  match v with
  | PyInt z => Ok z
  | PyStr s =>
      match parse_int s with
      | Some z => Ok z
      | None => Raise (ValueError s)
      end
  | PyNone => Raise TypeError
  end.

(** *** Floats *)

Definition float := spec_float.

#[export] Instance float_eq_dec : EqDecision float.
Proof. unfold float. solve_decision. Defined.

Definition prec : Z := 53.
Definition emax : Z := 1024.

Definition fmul : float -> float -> float := SFmul prec emax.
Definition fdiv : float -> float -> float := SFdiv prec emax.

(** The float nearest to an integer (ties to even). *)
Definition Z2F (z : Z) : float := binary_normalize prec emax z 0 false.

(** The conversion of the integer operand of a mixed [int * float] or
    [int / float]; an integer beyond the range of a float raises. *)
Definition float_of_int (z : Z) : result float :=
  match Z2F z with
  | S754_infinity _ => Raise OverflowError
  | f => Ok f
  end.

(** A decimal literal [1e-k], correctly rounded. *)
Definition lit_inv (d : Z) : float := fdiv (Z2F 1) (Z2F d).

End Py.

Export Py.


(** ** Trade identifiers and the number formats *)

(** Modelled from the spec: [pyalgotrade.utils.dt.timestamp_to_datetime]
    is not part of the sources at hand.  The spec describes it as the
    deterministic conversion of Unix seconds to a UTC datetime; a datetime
    is represented here by the Unix seconds it stands for. *)
Record datetime := { unix_seconds : float }.

Definition timestamp_to_datetime (unixTime : float) : datetime :=
  {| unix_seconds := unixTime |}.

Definition timestamp_to_tid (unixTime : Z) : Z := unixTime * 1000000.

Definition tid_to_datetime (tid : pyval) : result datetime :=
  i ← int tid;
  x ← float_of_int i;
  let unixTime := fdiv x (Z2F 1000000) in
  mret (timestamp_to_datetime unixTime).

Definition from_value_int (currency value_int : pyval) : result float :=
  currency ← upper currency;
  ret ← int value_int;
  x ← float_of_int ret;
  if bool_decide (currency ∈ ["JPY"; "SEK"]) then
    mret (fmul x (lit_inv 1000))
  else if bool_decide (currency = "BTC") then
    mret (fmul x (lit_inv 100000000))
  else
    mret (fmul x (lit_inv 100000)).

Definition from_amount_int (value_int : pyval) : result float :=
  i ← int value_int;
  x ← float_of_int i;
  mret (fmul x (lit_inv 100000000)).

(** ** The record decoder: class [Trade] *)

Record Trade := {
  getId : Z;
  getDateTime : datetime;
  getPrice : float;
  getAmount : float;
  getType : pyval
}.

Definition Trade_init (trade : gmap string pyval) : result Trade :=
  tid ← getitem trade "tid";
  tradeId ← int tid;
  tid' ← getitem trade "tid";
  dateTime ← tid_to_datetime tid';
  currency ← getitem trade "price_currency";
  price_int ← getitem trade "price_int";
  price ← from_value_int currency price_int;
  amount_int ← getitem trade "amount_int";
  amount ← from_amount_int amount_int;
  type ← getitem trade "trade_type";
  mret {| getId := tradeId; getDateTime := dateTime; getPrice := price;
          getAmount := amount; getType := type |}.

(** ** The page filter: class [Trades] *)

Record Trades := {
  getFirst : option Trade;
  getLast : option Trade;
  getTrades : list Trade
}.

(** One pass of the loop body over a kept entry: append, then update
    the first and the last trade. *)
Definition Trades_store (self : Trades) (tradeObj : Trade) : Trades :=
  let trades := getTrades self ++ [tradeObj] in
  let first :=
    match getFirst self with
    | None => Some tradeObj
    | Some f => if getId tradeObj <? getId f then Some tradeObj else Some f
    end in
  let last :=
    match getLast self with
    | None => Some tradeObj
    | Some l => if getId tradeObj >? getId l then Some tradeObj else Some l
    end in
  {| getFirst := first; getLast := last; getTrades := trades |}.

Fixpoint Trades_loop (trades : list (gmap string pyval)) (self : Trades)
  : result Trades :=
  match trades with
  | [] => Ok self
  | trade :: rest =>
      primary ← getitem trade "primary";
      if bool_decide (primary ≠ PyStr "Y") then Trades_loop rest self
      else
        tradeObj ← Trade_init trade;
        Trades_loop rest (Trades_store self tradeObj)
  end.

Definition Trades_init (trades : list (gmap string pyval)) : result Trades :=
  Trades_loop trades {| getFirst := None; getLast := None; getTrades := [] |}.

(** ** The sink: class [TradesFile]

    The file object is the trace of the operations performed on it, in
    program order. *)

Definition newline : string := String (ascii_of_N 10) EmptyString.

Inductive text :=
| Literal (s : string)
  (** ["%s,%s,%s,%s\n" % (id, price, amount, type)] *)
| Row (id : Z) (price amount : float) (type : pyval).

#[export] Instance text_eq_dec : EqDecision text.
Proof. solve_decision. Defined.

Inductive file_op :=
| FOpen (path mode : string)
| FWrite (t : text)
| FFlush
| FClose.

#[export] Instance file_op_eq_dec : EqDecision file_op.
Proof. solve_decision. Defined.

Definition file := list file_op.

Definition TradesFile_init (csvFile : string) : file :=
  [FOpen csvFile "w"; FWrite (Literal ("id,price,amount,type" +:+ newline)); FFlush].

Definition row_of (trade : Trade) : text :=
  Row (getId trade) (getPrice trade) (getAmount trade) (getType trade).

(** The row of a trade is a [unicode] string when its type is one;
    [write] then encodes it to ASCII, and raises when it cannot. *)
Definition writable (trade : Trade) : bool :=
  match getType trade with
  | PyStr s => is_ascii s
  | _ => true
  end.

(** The [for] loop of [addTrades]: the outcome and the file. *)
Fixpoint write_rows (f : file) (trades : list Trade) : result () * file :=
  match trades with
  | [] => (Ok (), f)
  | trade :: rest =>
      if writable trade then write_rows (f ++ [FWrite (row_of trade)]) rest
      else (Raise UnicodeEncodeError, f)
  end.

Definition addTrades (f : file) (trades : list Trade) : result () * file :=
  match write_rows f trades with
  | (Ok _, f') => (Ok (), f' ++ [FFlush])
  | (Raise e, f') => (Raise e, f')
  end.

(** What has been written to a file, and what a flush has pushed out. *)
Definition written (f : file) : list text :=
  omap (λ op, match op with FWrite t => Some t | _ => None end) f.

Fixpoint flushed_from (pending done : list text) (f : file) : list text :=
  match f with
  | [] => done
  | FWrite t :: f' => flushed_from (pending ++ [t]) done f'
  | FFlush :: f' => flushed_from [] (done ++ pending) f'
  | FClose :: f' => flushed_from [] (done ++ pending) f'
  | FOpen _ _ :: f' => flushed_from pending done f'
  end.

Definition flushed (f : file) : list text := flushed_from [] [] f.

(** ** The page fetcher *)

(** The JSON document of a reply: its ["result"] and ["return"] members,
    when present. *)
Record response := {
  result_member : option pyval;
  return_member : option (list (gmap string pyval))
}.

(** What one HTTP request leads to. *)
Inductive reply :=
| IOError (msg : string)
  (** A reply with its [Content-Type]; the body is [None] when it is not a
      JSON document. *)
| Reply (content_type : string) (body : option response).

(** The remote end: the reply to the [n]-th request of the run, for the
    pair [BTC<currency>] and the cursor [since] of the URL. *)
Definition server := nat → string → Z → reply.

Definition str (v : pyval) : string :=
  match v with
  | PyNone => "None"
  | PyInt z => pretty z
  | PyStr s => s
  end.

Definition download_trades_impl (srv : server) (n : nat)
    (currency : string) (tid : Z) : result response :=
  match srv n (upper_string currency) tid with
  | IOError msg => Raise (Failure msg)
  | Reply content_type body =>
      if negb (String.prefix "application/json" content_type) then
        Raise (Failure ("Failed to download data. Invalid Content-Type: " +:+ content_type))
      else
        match body with
        | None => Raise (ValueError "No JSON object could be decoded")
        | Some response =>
            match result_member response with
            | None => Raise (KeyError "result")
            | Some r =>
                if bool_decide (r ≠ PyStr "success") then
                  let msg :=
                    "Failed to download data. Result '" +:+ str r +:+ "'" in
                  match r with
                  | PyStr _ => Raise (FailureU msg)
                  | _ => Raise (Failure msg)
                  end
                else Ok response
            end
        end
  end.

(** ["%s. Retrying..." % (e)] in the handler: [str(e)] encodes a
    [unicode] message to ASCII, and raises when it cannot. *)
Definition format_exn (e : exn) : result () :=
  match e with
  | FailureU msg => if is_ascii msg then Ok () else Raise UnicodeEncodeError
  | _ => Ok ()
  end.

(** The retry loop of [download_trades_since].  [n] counts the requests
    issued so far; the loop gives back the count after its last request.
    [None] stands for a loop that is still running when the fuel is
    used up. *)
Fixpoint download_trades_retry (fuel : nat) (srv : server) (currency : string)
    (tid retries : Z) (n : nat) : option (result response * nat) :=
  match fuel with
  | O => None
  | S fuel' =>
      match download_trades_impl srv n currency tid with
      | Ok response => Some (Ok response, S n)
      | Raise e =>
          if retries =? 0 then Some (Raise e, S n)
          else
            match format_exn e with
            | Raise e' => Some (Raise e', S n)
            | Ok _ =>
                download_trades_retry fuel' srv currency tid (retries - 1) (S n)
            end
      end
  end.

(** The date of the cursor is computed for the log before the first
    request. *)
Definition download_trades_since (fuel : nat) (srv : server) (currency : string)
    (tid retries : Z) (n : nat) : option (result Trades * nat) :=
  match tid_to_datetime (PyInt tid) with
  | Raise e => Some (Raise e, n)
  | Ok _ =>
      match download_trades_retry fuel srv currency tid retries n with
      | None => None
      | Some (Raise e, n') => Some (Raise e, n')
      | Some (Ok response, n') =>
          match return_member response with
          | None => Some (Raise (KeyError "return"), n')
          | Some entries => Some (Trades_init entries, n')
          end
      end
  end.

(** ** The range walker *)

(** What one pass through the body of the [while] loop of
    [download_trades] leaves behind: either the loop is over ([done] is
    set, or an exception leaves it), or it goes on from a new cursor. *)
Inductive pass :=
| Stop (r : result ()) (tradesFile : file) (n : nat)
| Next (tradesFile : file) (nextTid : Z) (n : nat).

Definition download_trades_body (fuel : nat) (srv : server) (tradesFile : file)
    (currency : string) (nextTid tidEnd : Z) (n : nat) : option pass :=
  match download_trades_since fuel srv currency nextTid 3 n with
  | None => None
  | Some (Raise e, n') => Some (Stop (Raise e) tradesFile n')
  | Some (Ok trades, n') =>
      if Z.of_nat (length (getTrades trades)) =? 0 then
        Some (Stop (Ok ()) tradesFile n')
      else
        match getLast trades with
        | None => Some (Stop (Raise AttributeError) tradesFile n')
        | Some last =>
            if getId last <? tidEnd then
              match addTrades tradesFile (getTrades trades) with
              | (Ok _, tradesFile') =>
                  Some (Next tradesFile' (getId last + 1) n')
              | (Raise e, tradesFile') => Some (Stop (Raise e) tradesFile' n')
              end
            else
              let tradeItems :=
                filter (λ trade, getId trade < tidEnd) (getTrades trades) in
              let '(r, tradesFile') := addTrades tradesFile tradeItems in
              Some (Stop r tradesFile' n')
        end
  end.

(** The loop.  A run is described by its result, the file and the number
    of requests issued; [None] stands for a run that is still going when
    the fuel is used up. *)
Fixpoint download_trades (fuel : nat) (srv : server) (tradesFile : file)
    (currency : string) (tidBegin tidEnd : Z) (n : nat)
  : option (result () * file * nat) :=
  match fuel with
  | O => None
  | S fuel' =>
      match download_trades_body fuel srv tradesFile currency tidBegin tidEnd n with
      | None => None
      | Some (Stop r tradesFile' n') => Some (r, tradesFile', n')
      | Some (Next tradesFile' nextTid n') =>
          download_trades fuel' srv tradesFile' currency nextTid tidEnd n'
      end
  end.

(** The two statements every entry point ([download_trades_by_year],
    [download_trades_by_month], [download_trades_by_day]) ends with, once
    it has computed the range. *)
Definition download_trades_to (fuel : nat) (srv : server) (csvFile : string)
    (currency : string) (tidBegin tidEnd : Z) (n : nat)
  : option (result () * file * nat) :=
  let tradesFile := TradesFile_init csvFile in
  download_trades fuel srv tradesFile currency tidBegin tidEnd n.

(** ** A mock source

    A server that holds a fixed list of entries and answers every request
    with the first [limit] of them whose id is at or after the cursor. *)

(** The id an entry carries (0 when it carries none). *)
Definition entry_tid (entry : gmap string pyval) : Z :=
  match entry !! "tid" with
  | Some v => match int v with Ok z => z | Raise _ => 0 end
  | None => 0
  end.

Definition mock_page (limit : nat) (known : list (gmap string pyval))
    (since : Z) : list (gmap string pyval) :=
  take limit (filter (λ entry, since ≤ entry_tid entry) known).

Definition mock_server (limit : nat) (known : list (gmap string pyval))
  : server :=
  λ _ _ since,
    Reply "application/json; charset=utf-8"
      (Some {| result_member := Some (PyStr "success");
               return_member := Some (mock_page limit known since) |}).

(** An entry with all six fields. *)
Definition entry (tid : Z) (currency : string) (price_int amount_int : Z)
    (type primary : string) : gmap string pyval :=
  {[ "tid" := PyInt tid; "price_currency" := PyStr currency;
     "price_int" := PyInt price_int; "amount_int" := PyInt amount_int;
     "trade_type" := PyStr type; "primary" := PyStr primary ]}.

(** ** Auxiliary notions and sample inputs *)

(** The scale factor of a currency code, as the table of the number
    formats gives it. *)
Definition price_scale (currency : string) : float :=
  if bool_decide (currency = "JPY" ∨ currency = "SEK") then lit_inv 1000
  else if bool_decide (currency = "BTC") then lit_inv 100000000
  else lit_inv 100000.

(** The scale factor of amounts. *)
Definition amount_scale : float := lit_inv 100000000.

(** The entries of a page the filter keeps. *)
Definition kept (page : list (gmap string pyval)) : list (gmap string pyval) :=
  filter (λ entry, entry !! "primary" = Some (PyStr "Y")) page.

(** What the filter maintains about the first and the last trade. *)
Record Trades_inv (self : Trades) : Prop := {
  inv_first_none : getFirst self = None ↔ getTrades self = [];
  inv_last_none : getLast self = None ↔ getTrades self = [];
  inv_first_min : ∀ f, getFirst self = Some f →
    f ∈ getTrades self ∧ ∀ t, t ∈ getTrades self → getId f ≤ getId t;
  inv_last_max : ∀ l, getLast self = Some l →
    l ∈ getTrades self ∧ ∀ t, t ∈ getTrades self → getId t ≤ getId l
}.

(** A page out of order, with an entry mirrored into another currency. *)
Definition sample_page : list (gmap string pyval) :=
  [entry 200 "USD" 1250000 100000000 "bid" "Y";
   entry 150 "EUR" 9500000 100000000 "bid" "N";
   entry 100 "USD" 1240000 200000000 "ask" "Y"].

(** The outcome of the page filter on it. *)
Definition sample_trades : Trades :=
  match Trades_init sample_page with
  | Ok ts => ts
  | Raise _ => {| getFirst := None; getLast := None; getTrades := [] |}
  end.

(** A server that is down. *)
Definition dead_server : server := λ _ _ _, IOError "connection refused".

(** A server whose first request fails and whose pages carry an entry
    with a malformed price. *)
Definition malformed_server : server :=
  λ n _ _,
    match n with
    | O => IOError "timed out"
    | _ => Reply "application/json"
             (Some {| result_member := Some (PyStr "success");
                      return_member :=
                        Some [<["price_int" := PyStr "12x"]>
                                (entry 1500 "USD" 0 100000000 "bid" "Y")] |})
    end.

(** The file a pass leaves behind. *)
Definition pass_file (p : pass) : file :=
  match p with
  | Stop _ tradesFile _ => tradesFile
  | Next tradesFile _ _ => tradesFile
  end.

(** A server with a single page, whose last id is 250. *)
Definition boundary_server : server :=
  mock_server 10 [entry 201 "USD" 1250000 100000000 "bid" "Y";
                  entry 249 "USD" 1250000 100000000 "bid" "Y";
                  entry 250 "USD" 1250000 100000000 "ask" "Y"].

(** Placeholders for the branches that the samples below never take. *)
Definition no_trades : Trades :=
  {| getFirst := None; getLast := None; getTrades := [] |}.

Definition no_trade : Trade :=
  {| getId := 0; getDateTime := timestamp_to_datetime (Z2F 0);
     getPrice := Z2F 0; getAmount := Z2F 0; getType := PyNone |}.

(** The page fetched from it at the cursor 201. *)
Definition boundary_page : Trades :=
  match download_trades_since 1 boundary_server "USD" 201 3 0 with
  | Some (Ok trades, _) => trades
  | _ => no_trades
  end.

(** A server whose page reaches back before the cursor. *)
Definition early_server : server :=
  λ _ _ _,
    Reply "application/json"
      (Some {| result_member := Some (PyStr "success");
               return_member :=
                 Some [entry 5 "USD" 1250000 100000000 "bid" "Y";
                       entry 25 "USD" 1250000 100000000 "ask" "Y"] |}).

(** The page fetched from it at the cursor 10. *)
Definition early_page : Trades :=
  match download_trades_since 1 early_server "USD" 10 3 0 with
  | Some (Ok trades, _) => trades
  | _ => no_trades
  end.

(** A server whose pages overlap: as long as it holds a trade at or after
    the cursor, its page starts one id before the cursor. *)
Definition overlap_known : list (gmap string pyval) :=
  [entry 200 "USD" 1250000 100000000 "bid" "Y";
   entry 201 "USD" 1250000 100000000 "ask" "Y";
   entry 249 "USD" 1250000 100000000 "bid" "Y";
   entry 250 "USD" 1250000 100000000 "ask" "Y"].

Definition overlap_entries (since : Z) : list (gmap string pyval) :=
  match filter (λ entry, since ≤ entry_tid entry) overlap_known with
  | [] => []
  | _ => filter (λ entry, since - 1 ≤ entry_tid entry) overlap_known
  end.

Definition overlap_server : server :=
  λ _ _ since,
    Reply "application/json"
      (Some {| result_member := Some (PyStr "success");
               return_member := Some (overlap_entries since) |}).

(** The page fetched from it at the cursor 201. *)
Definition overlap_page : Trades :=
  match download_trades_since 1 overlap_server "USD" 201 3 0 with
  | Some (Ok trades, _) => trades
  | _ => no_trades
  end.

(** A server answers forward when the kept entries of its pages have ids
    at or after the cursor of the request. *)
Definition forward (srv : server) : Prop :=
  ∀ n currency since content_type response entries,
    srv n currency since = Reply content_type (Some response) →
    return_member response = Some entries →
    Forall (λ entry, since ≤ entry_tid entry) (kept entries).

(** A server makes the cursor advance when each of its pages that has
    a kept entry has one whose id is at or after the cursor of the
    request. *)
Definition advancing (srv : server) : Prop :=
  ∀ n currency since content_type response entries,
    srv n currency since = Reply content_type (Some response) →
    return_member response = Some entries →
    kept entries = [] ∨ Exists (λ entry, since ≤ entry_tid entry) (kept entries).

(** The file after the rows of some trades, and after a whole batch. *)
Definition with_rows (f : file) (trades : list Trade) : file :=
  f ++ ((λ trade, FWrite (row_of trade)) <$> trades).

Definition with_batch (f : file) (trades : list Trade) : file :=
  with_rows f trades ++ [FFlush].

(** A string with a character above 127. *)
Definition accented : string := "achet" +:+ String (ascii_of_N 233) EmptyString.

(** A server that refuses every request with a message that is not
    ASCII. *)
Definition garbled_server : server :=
  λ _ _ _,
    Reply "application/json"
      (Some {| result_member := Some (PyStr accented);
               return_member := None |}).

(** A server whose page has a trade with a type that is not ASCII. *)
Definition accent_server : server :=
  λ _ _ _,
    Reply "application/json"
      (Some {| result_member := Some (PyStr "success");
               return_member :=
                 Some [entry 5 "USD" 1250000 100000000 "bid" "Y";
                       entry 7 "USD" 1250000 100000000 accented "Y";
                       entry 9 "USD" 1250000 100000000 "ask" "Y";
                       entry 25 "USD" 1250000 100000000 "ask" "Y"] |}).

(** Its page, filtered. *)
Definition accent_page : Trades :=
  match download_trades_since 1 accent_server "USD" 10 3 0 with
  | Some (Ok trades, _) => trades
  | _ => {| getFirst := None; getLast := None; getTrades := [] |}
  end.

(** A known trade set that opens with an entry mirrored into another
    currency. *)
Definition mirrored_trades : list (gmap string pyval) :=
  [entry 100 "EUR" 9500000 100000000 "bid" "N";
   entry 200 "USD" 1250000 100000000 "bid" "Y"].

(** A server that answers every request with the same trade. *)
Definition stale_server : server :=
  λ _ _ _,
    Reply "application/json"
      (Some {| result_member := Some (PyStr "success");
               return_member :=
                 Some [entry 5 "USD" 1250000 100000000 "bid" "Y"] |}).

(** Its page, filtered. *)
Definition stale_page : Trades :=
  match Trades_init [entry 5 "USD" 1250000 100000000 "bid" "Y"] with
  | Ok trades => trades
  | Raise _ => no_trades
  end.

(** An entry of the known trade set: a primary entry that decodes to a
    trade whose row can be written. *)
Definition well_formed (entry : gmap string pyval) : Prop :=
  entry !! "primary" = Some (PyStr "Y")
  ∧ ∃ t, Trade_init entry = Ok t ∧ writable t = true.

(** The trade an entry decodes to. *)
Definition decodes (entry : gmap string pyval) (t : Trade) : Prop :=
  Trade_init entry = Ok t.

(** A known trade set, in ascending order of ids. *)
Definition known_trades : list (gmap string pyval) :=
  [entry 100 "USD" 1250000 100000000 "bid" "Y";
   entry 200 "USD" 1251000 50000000 "ask" "Y";
   entry 201 "USD" 1252000 100000000 "bid" "Y";
   entry 249 "USD" 1253000 25000000 "bid" "Y";
   entry 250 "USD" 1254000 100000000 "ask" "Y";
   entry 300 "USD" 1255000 100000000 "bid" "Y"].

(** ** The range calculators

    [datetime.datetime(year, month, day)] is a date of the proleptic
    Gregorian calendar at midnight; [begin + datetime.timedelta(days=1)]
    is the day after it. *)

Record civil := { civil_year : Z; civil_month : Z; civil_day : Z }.

#[export] Instance civil_eq_dec : EqDecision civil.
Proof. solve_decision. Defined.

Definition is_leap (year : Z) : bool :=
  (year mod 4 =? 0) && (negb (year mod 100 =? 0) || (year mod 400 =? 0)).

Definition days_in_month (year month : Z) : Z :=
  if month =? 2 then (if is_leap year then 29 else 28)
  else if (month =? 4) || (month =? 6) || (month =? 9) || (month =? 11) then 30
  else 31.

Definition MINYEAR : Z := 1.
Definition MAXYEAR : Z := 9999.

(** The arguments of [datetime.datetime] are read as C [int]s. *)
Definition fits_int (z : Z) : bool :=
  (-2147483648 <=? z) && (z <=? 2147483647).

(** [datetime.datetime(year, month, day)] *)
Definition datetime_datetime (year month day : Z) : result civil :=
  if negb (fits_int year && fits_int month && fits_int day) then
    Raise OverflowError
  else if negb ((MINYEAR <=? year) && (year <=? MAXYEAR)) then
    Raise (ValueError "year is out of range")
  else if negb ((1 <=? month) && (month <=? 12)) then
    Raise (ValueError "month must be in 1..12")
  else if negb ((1 <=? day) && (day <=? days_in_month year month)) then
    Raise (ValueError "day is out of range for month")
  else Ok {| civil_year := year; civil_month := month; civil_day := day |}.

(** [d + datetime.timedelta(days=1)] *)
Definition add_one_day (d : civil) : result civil :=
  if civil_day d <? days_in_month (civil_year d) (civil_month d) then
    Ok {| civil_year := civil_year d; civil_month := civil_month d;
          civil_day := civil_day d + 1 |}
  else if civil_month d <? 12 then
    Ok {| civil_year := civil_year d; civil_month := civil_month d + 1;
          civil_day := 1 |}
  else if civil_year d <? MAXYEAR then
    Ok {| civil_year := civil_year d + 1; civil_month := 1; civil_day := 1 |}
  else Raise OverflowError.

Section range_calculators.
(** [pyalgotrade.utils.dt] is not part of the sources at hand: its two
    functions are taken as they come. *)
Context (as_utc : civil → result civil)
        (datetime_to_timestamp : civil → result Z).

Definition datetime_to_tid (dateTime : civil) : result Z :=
  utc ← as_utc dateTime;
  unixTime ← datetime_to_timestamp utc;
  mret (timestamp_to_tid unixTime).

(** The first four statements of [download_trades_by_year]: the first
    and last trade ids for the year. *)
Definition year_range (year : Z) : result (Z * Z) :=
  begin ← datetime_datetime year 1 1;
  end_ ← datetime_datetime (year + 1) 1 1;
  tidBegin ← datetime_to_tid begin;
  tidEnd ← datetime_to_tid end_;
  mret (tidBegin, tidEnd).

(** The same for [download_trades_by_month]. *)
Definition month_range (year month : Z) : result (Z * Z) :=
  begin ← datetime_datetime year month 1;
  end_ ← (if month =? 12 then datetime_datetime (year + 1) 1 1
          else datetime_datetime year (month + 1) 1);
  tidBegin ← datetime_to_tid begin;
  tidEnd ← datetime_to_tid end_;
  mret (tidBegin, tidEnd).

(** The same for [download_trades_by_day]. *)
Definition day_range (year month day : Z) : result (Z * Z) :=
  begin ← datetime_datetime year month day;
  end_ ← add_one_day begin;
  tidBegin ← datetime_to_tid begin;
  tidEnd ← datetime_to_tid end_;
  mret (tidBegin, tidEnd).

(** An entry point: the range, then the file and the download.  A run
    that is aborted before [TradesFile] is reached has the empty trace
    for its file. *)
Definition download_range (fuel : nat) (srv : server) (currency : string)
    (range : result (Z * Z)) (csvFile : string) (n : nat)
  : option (result () * file * nat) :=
  match range with
  | Raise e => Some (Raise e, [], n)
  | Ok (tidBegin, tidEnd) =>
      download_trades_to fuel srv csvFile currency tidBegin tidEnd n
  end.

Definition download_trades_by_year (fuel : nat) (srv : server)
    (currency : string) (year : Z) (csvFile : string) (n : nat)
  : option (result () * file * nat) :=
  download_range fuel srv currency (year_range year) csvFile n.

Definition download_trades_by_month (fuel : nat) (srv : server)
    (currency : string) (year month : Z) (csvFile : string) (n : nat)
  : option (result () * file * nat) :=
  download_range fuel srv currency (month_range year month) csvFile n.

Definition download_trades_by_day (fuel : nat) (srv : server)
    (currency : string) (year month day : Z) (csvFile : string) (n : nat)
  : option (result () * file * nat) :=
  download_range fuel srv currency (day_range year month day) csvFile n.

End range_calculators.

(** Where the first and the last trade stand among the kept ones. *)
Record Trades_ties (self : Trades) : Prop := {
  ties_first : ∀ f, getFirst self = Some f →
    ∃ before after,
      getTrades self = before ++ f :: after
      ∧ Forall (λ t, getId f < getId t) before
      ∧ Forall (λ t, getId f ≤ getId t) after;
  ties_last : ∀ l, getLast self = Some l →
    ∃ before after,
      getTrades self = before ++ l :: after
      ∧ Forall (λ t, getId t < getId l) before
      ∧ Forall (λ t, getId t ≤ getId l) after
}.

(** Modelled from the spec: [pyalgotrade.utils.dt.datetime_to_timestamp]
    is not part of the sources at hand.  The spec has the boundaries at
    UTC midnight: the seconds from 1970-01-01 to the midnight that opens
    the date.  It serves in the examples of the range calculators. *)
Definition days_from_civil (d : civil) : Z :=
  let y := if civil_month d <=? 2 then civil_year d - 1 else civil_year d in
  let era := y / 400 in
  let yoe := y - era * 400 in
  let mp := if civil_month d >? 2 then civil_month d - 3 else civil_month d + 9 in
  let doy := (153 * mp + 2) / 5 + civil_day d - 1 in
  let doe := yoe * 365 + yoe / 4 - yoe / 100 + doy in
  era * 146097 + doe - 719468.

Definition utc_midnight_timestamp (d : civil) : result Z :=
  Ok (days_from_civil d * 86400).

(** * Properties *)

(** ** The number formats *)

Lemma upper_ascii_idemp c : upper_ascii (upper_ascii c) = upper_ascii c.
Proof. by destruct c as [[] [] [] [] [] [] [] []]. Qed.

Lemma upper_string_idemp s : upper_string (upper_string s) = upper_string s.
Proof. induction s as [|c s IH]; simpl; [done|]. by rewrite upper_ascii_idemp, IH. Qed.

(** C10: the currency code is read without regard to case: the price of
    a currency string is the price of its upper-case form, so that "jpy"
    is scaled as JPY. *)
Theorem from_value_int_upper (c : string) (v : Z) :
  from_value_int (PyStr c) (PyInt v)
  = from_value_int (PyStr (upper_string c)) (PyInt v)
  ∧ from_value_int (PyStr "jpy") (PyInt v)
    = from_value_int (PyStr "JPY") (PyInt v)
  ∧ from_value_int (PyStr "jpy") (PyInt v)
    = (x ← float_of_int v; mret (fmul x (lit_inv 1000))).
Proof.
  split; [|done].
  unfold from_value_int. simpl. by rewrite upper_string_idemp.
Qed.

Lemma from_value_int_scale (c : string) (v : pyval) :
  from_value_int (PyStr c) v
  = (i ← int v; x ← float_of_int i;
     mret (fmul x (price_scale (upper_string c)))).
Proof.
  unfold from_value_int, price_scale. simpl.
  destruct (int v) as [i|]; simpl; [|done].
  destruct (float_of_int i) as [x|]; simpl; [|done].
  set (u := upper_string c).
  destruct (decide (u = "JPY")) as [->|Hj]; [done|].
  destruct (decide (u = "SEK")) as [->|Hs]; [done|].
  rewrite (bool_decide_eq_false_2 (u ∈ ["JPY"; "SEK"])).
  2:{ rewrite !elem_of_cons, elem_of_nil. tauto. }
  rewrite (bool_decide_eq_false_2 (u = "JPY" ∨ u = "SEK")) by tauto.
  by case_bool_decide.
Qed.



(** ** The page filter *)

Lemma Trades_inv_empty :
  Trades_inv {| getFirst := None; getLast := None; getTrades := [] |}.
Proof. by split. Qed.

Lemma Trades_store_trades self t :
  getTrades (Trades_store self t) = getTrades self ++ [t].
Proof. done. Qed.

Lemma Trades_store_inv self t : Trades_inv self → Trades_inv (Trades_store self t).
Proof.
  intros [Hfn Hln Hf Hl].
  assert (Hnew : t ∈ getTrades self ++ [t]).
  { apply elem_of_app. right. by apply list_elem_of_singleton. }
  split; simpl.
  - split; [by destruct (getFirst self); [case_match|] | by destruct (getTrades self)].
  - split; [by destruct (getLast self); [case_match|] | by destruct (getTrades self)].
  - intros f. destruct (getFirst self) as [f0|] eqn:E.
    + destruct (Hf f0 eq_refl) as [Hin Hmin].
      destruct (Z.ltb_spec (getId t) (getId f0)); intros [= <-].
      * split; [done|].
        intros t' [Ht'| ->%list_elem_of_singleton]%elem_of_app; [|lia].
        specialize (Hmin _ Ht'). lia.
      * split; [apply elem_of_app; by left|].
        intros t' [Ht'| ->%list_elem_of_singleton]%elem_of_app; [|lia].
        by apply Hmin.
    + intros [= <-]. destruct Hfn as [Hfn _]. rewrite (Hfn eq_refl) in *.
      split; [done|]. by intros t' ->%list_elem_of_singleton.
  - intros l. destruct (getLast self) as [l0|] eqn:E.
    + destruct (Hl l0 eq_refl) as [Hin Hmax].
      destruct (Z.gtb_spec (getId t) (getId l0)); intros [= <-].
      * split; [done|].
        intros t' [Ht'| ->%list_elem_of_singleton]%elem_of_app; [|lia].
        specialize (Hmax _ Ht'). lia.
      * split; [apply elem_of_app; by left|].
        intros t' [Ht'| ->%list_elem_of_singleton]%elem_of_app; [|lia].
        by apply Hmax.
    + intros [= <-]. destruct Hln as [Hln _]. rewrite (Hln eq_refl) in *.
      split; [done|]. by intros t' ->%list_elem_of_singleton.
Qed.

(** The loop decodes the kept entries in order and stores each of them. *)
Lemma Trades_loop_ok page : ∀ self ts,
  Trades_loop page self = Ok ts →
  ∃ new, Forall2 (λ entry t, Trade_init entry = Ok t) (kept page) new
         ∧ ts = foldl Trades_store self new.
Proof.
  induction page as [|e page IH]; intros self ts H; simpl in H.
  - exists []. split; [constructor | by injection H].
  - unfold kept. rewrite filter_cons.
    destruct (e !! "primary") as [p|] eqn:Ep; unfold getitem in H; rewrite Ep in H;
      simpl in H; [|done].
    case_bool_decide as Hp.
    + destruct (IH _ _ H) as (new & Hnew & ->).
      exists new. split; [|done].
      rewrite decide_False by congruence. done.
    + subst p.
      destruct (Trade_init e) as [t|] eqn:Et; simpl in H; [|done].
      destruct (IH _ _ H) as (new & Hnew & ->).
      exists (t :: new). split; [|done].
      rewrite decide_True by done. by constructor.
Qed.

Lemma Trades_loop_complete page : ∀ self new,
  Forall (λ entry, is_Some (entry !! "primary")) page →
  Forall2 (λ entry t, Trade_init entry = Ok t) (kept page) new →
  Trades_loop page self = Ok (foldl Trades_store self new).
Proof.
  induction page as [|e page IH]; intros self new Hp Hnew; simpl.
  - by inversion Hnew.
  - inversion Hp as [|? ? [p Ep] Hp']; subst.
    unfold kept in Hnew. rewrite filter_cons in Hnew.
    unfold getitem. rewrite Ep. simpl.
    case_bool_decide as Hy.
    + rewrite decide_False in Hnew by congruence. by apply IH.
    + subst p. rewrite decide_True in Hnew by done.
      inversion Hnew as [|? t ? new' Ht Hnew']; subst.
      rewrite Ht. simpl. by apply IH.
Qed.

Lemma foldl_Trades_store_inv new : ∀ self,
  Trades_inv self → Trades_inv (foldl Trades_store self new).
Proof.
  induction new as [|t new IH]; intros self Hinv; simpl; [done|].
  by apply IH, Trades_store_inv.
Qed.

Lemma foldl_Trades_store_trades new : ∀ self,
  getTrades (foldl Trades_store self new) = getTrades self ++ new.
Proof.
  induction new as [|t new IH]; intros self; simpl.
  - by rewrite app_nil_r.
  - rewrite IH. simpl. by rewrite <- app_assoc.
Qed.

Lemma Trades_init_ok page ts :
  Trades_init page = Ok ts →
  Forall2 (λ entry t, Trade_init entry = Ok t) (kept page) (getTrades ts)
  ∧ Trades_inv ts.
Proof.
  intros (new & Hnew & ->)%Trades_loop_ok. split.
  - by rewrite foldl_Trades_store_trades.
  - apply foldl_Trades_store_inv, Trades_inv_empty.
Qed.

(** C5: the page filter keeps exactly the entries whose [primary] field
    is "Y", decoded in their order of arrival; [getFirst] is a kept trade
    of minimal id and [getLast] a kept trade of maximal id, whatever the
    order of the page; each of them is [None] exactly when no trade is
    kept. *)
Theorem Trades_filter (page : list (gmap string pyval)) (ts : Trades) :
  Trades_init page = Ok ts →
  Forall2 (λ entry t, Trade_init entry = Ok t)
    (filter (λ entry, entry !! "primary" = Some (PyStr "Y")) page)
    (getTrades ts)
  ∧ (getFirst ts = None ↔ getTrades ts = [])
  ∧ (getLast ts = None ↔ getTrades ts = [])
  ∧ (∀ f, getFirst ts = Some f →
       f ∈ getTrades ts ∧ ∀ t, t ∈ getTrades ts → getId f ≤ getId t)
  ∧ (∀ l, getLast ts = Some l →
       l ∈ getTrades ts ∧ ∀ t, t ∈ getTrades ts → getId t ≤ getId l).
Proof.
  intros [Hkept [Hfn Hln Hf Hl]]%Trades_init_ok. done.
Qed.

Lemma Trades_filter_witness :
  Trades_init sample_page = Ok sample_trades
  ∧ getId <$> getTrades sample_trades = [200; 100]
  ∧ ∀ l, getLast sample_trades = Some l →
      l ∈ getTrades sample_trades
      ∧ ∀ t, t ∈ getTrades sample_trades → getId t ≤ getId l.
Proof.
  split; [by vm_compute|]. split; [by vm_compute|].
  apply (Trades_filter sample_page sample_trades). by vm_compute.
Defined.

(** ** Integers that a float holds *)

Lemma digits2_pos_lower p : 2 ^ (Z.pos (digits2_pos p) - 1) ≤ Z.pos p.
Proof.
  induction p as [p IH|p IH|]; cbn [digits2_pos]; [| |simpl; lia].
  - rewrite Pos2Z.inj_succ.
    replace (Z.succ (Z.pos (digits2_pos p)) - 1)
      with (Z.succ (Z.pos (digits2_pos p) - 1)) by lia.
    rewrite Z.pow_succ_r by lia. lia.
  - rewrite Pos2Z.inj_succ.
    replace (Z.succ (Z.pos (digits2_pos p)) - 1)
      with (Z.succ (Z.pos (digits2_pos p) - 1)) by lia.
    rewrite Z.pow_succ_r by lia. lia.
Qed.

Lemma digits2_pos_small p : Z.pos p < 2 ^ 53 → Z.pos (digits2_pos p) ≤ 53.
Proof.
  intros Hp. pose proof (digits2_pos_lower p) as Hl.
  destruct (Z_le_gt_dec (Z.pos (digits2_pos p)) 53) as [|Hgt]; [done|].
  assert (2 ^ 53 ≤ 2 ^ (Z.pos (digits2_pos p) - 1))
    by (apply Z.pow_le_mono_r; lia).
  lia.
Qed.

Lemma digits2_pos_iter_xO m k :
  digits2_pos (Pos.iter xO m k) = (digits2_pos m + k)%positive.
Proof.
  induction k as [|k IH] using Pos.peano_ind.
  - simpl. lia.
  - rewrite Pos.iter_succ. simpl. rewrite IH. lia.
Qed.

Lemma binary_round_aux_canonical s m e :
  fexp prec emax (Z.pos (digits2_pos m) + e) = e →
  e ≤ emax - prec →
  binary_round_aux prec emax s (Z.pos m) e loc_Exact = S754_finite s m e.
Proof.
  intros Hc He. unfold binary_round_aux, shr_fexp.
  cbn [Zdigits2 shr_record_of_loc].
  rewrite Hc, Z.sub_diag.
  cbn [shr shr_m loc_of_shr_record shr_r shr_s round_nearest_even Zdigits2].
  rewrite Hc, Z.sub_diag. cbn [shr shr_m].
  apply Z.leb_le in He. by rewrite He.
Qed.

Lemma binary_round_small s m :
  Z.pos m < 2 ^ 53 →
  ∃ m' e', binary_round prec emax s m 0 = S754_finite s m' e'.
Proof.
  intros Hm. apply digits2_pos_small in Hm.
  unfold binary_round, shl_align.
  assert (Hf : fexp prec emax (Z.pos (digits2_pos m) + 0)
               = Z.pos (digits2_pos m) - 53).
  { unfold fexp, emin, prec, emax. lia. }
  rewrite Hf.
  destruct (Z.pos (digits2_pos m) - 53 - 0) as [|d|d] eqn:Hd; [| lia |].
  - eexists _, _. apply binary_round_aux_canonical; [|unfold emax, prec; lia].
    rewrite Hf. lia.
  - eexists _, _. apply binary_round_aux_canonical; [|unfold emax, prec; lia].
    rewrite digits2_pos_iter_xO. unfold fexp, emin, prec, emax. lia.
Qed.

(** An integer below [2 ^ 53] in absolute value is within the range of
    a float, and so is the date of such an id. *)
Lemma float_of_int_small z :
  Z.abs z < 2 ^ 53 → is_ok (float_of_int z) = true.
Proof.
  intros Hz. unfold float_of_int, Z2F.
  destruct z as [|p|p]; simpl; [done| |].
  - destruct (binary_round_small false p) as (m' & e' & ->); [lia|done].
  - destruct (binary_round_small true p) as (m' & e' & ->); [lia|done].
Qed.

Lemma tid_to_datetime_small tid :
  Z.abs tid < 2 ^ 53 → is_ok (tid_to_datetime (PyInt tid)) = true.
Proof.
  intros Hz. unfold tid_to_datetime. simpl.
  pose proof (float_of_int_small tid Hz) as H.
  by destruct (float_of_int tid).
Qed.

(** ** The page fetcher *)

Section fetcher.
Context (srv : server) (currency : string) (tid : Z).

(** More fuel does not change the outcome of a loop that has ended. *)
Lemma download_trades_retry_fuel fuel : ∀ fuel' retries n out,
  (fuel ≤ fuel')%nat →
  download_trades_retry fuel srv currency tid retries n = Some out →
  download_trades_retry fuel' srv currency tid retries n = Some out.
Proof.
  induction fuel as [|fuel IH]; intros fuel' retries n out Hle H; [done|].
  destruct fuel' as [|fuel']; [lia|]. simpl in *.
  destruct (download_trades_impl srv n currency tid) as [r|e]; [done|].
  destruct (retries =? 0); [done|].
  destruct (format_exn e); [|done]. apply IH; [lia | done].
Qed.

Lemma download_trades_since_fuel fuel fuel' retries n out :
  (fuel ≤ fuel')%nat →
  download_trades_since fuel srv currency tid retries n = Some out →
  download_trades_since fuel' srv currency tid retries n = Some out.
Proof.
  intros Hle. unfold download_trades_since.
  destruct (tid_to_datetime (PyInt tid)); [|done].
  destruct (download_trades_retry fuel _ _ _ _ _) as [out'|] eqn:E; [|done].
  by rewrite (download_trades_retry_fuel _ _ _ _ _ Hle E).
Qed.

(** With a budget that is not negative the loop ends within
    [retries + 1] requests. *)
Lemma download_trades_retry_ends (k : nat) : ∀ fuel n,
  (k < fuel)%nat →
  ∃ r n', download_trades_retry fuel srv currency tid (Z.of_nat k) n
          = Some (r, n')
          ∧ (n < n' ≤ n + k + 1)%nat.
Proof.
  induction k as [|k IH]; intros fuel n Hlt;
    (destruct fuel as [|fuel]; [lia|]); simpl.
  - destruct (download_trades_impl srv n currency tid) as [r|e];
      eexists _, _; (split; [done | lia]).
  - destruct (download_trades_impl srv n currency tid) as [r|e].
    { eexists _, _; (split; [done | lia]). }
    replace (Z.of_nat (S k) =? 0) with false by (symmetry; apply Z.eqb_neq; lia).
    destruct (format_exn e).
    2:{ eexists _, _; (split; [done | lia]). }
    replace (Z.of_nat (S k) - 1) with (Z.of_nat k) by lia.
    destruct (IH fuel (S n)) as (r & n' & -> & Hn'); [lia|].
    eexists _, _. split; [done | lia].
Qed.

(** When every request fails, with a message that the handler can
    format as long as the budget lasts, the loop uses up its budget and
    raises the error of its last request. *)
Lemma download_trades_retry_fails (k : nat) : ∀ fuel n,
  (k < fuel)%nat →
  (∀ j, is_ok (download_trades_impl srv j currency tid) = false) →
  (∀ j e, (n ≤ j < n + k)%nat →
     download_trades_impl srv j currency tid = Raise e →
     format_exn e = Ok ()) →
  ∃ e, download_trades_impl srv (n + k) currency tid = Raise e
       ∧ download_trades_retry fuel srv currency tid (Z.of_nat k) n
         = Some (Raise e, (n + k + 1)%nat).
Proof.
  induction k as [|k IH]; intros fuel n Hlt Hfail Hfmt;
    (destruct fuel as [|fuel]; [lia|]); simpl.
  - pose proof (Hfail n) as Hn. rewrite Nat.add_0_r.
    destruct (download_trades_impl srv n currency tid) as [r|e]; [done|].
    exists e. split; [done|]. do 2 f_equal. lia.
  - pose proof (Hfail n) as Hn. pose proof (Hfmt n) as Hf.
    destruct (download_trades_impl srv n currency tid) as [r|e]; [done|].
    replace (Z.of_nat (S k) =? 0) with false by (symmetry; apply Z.eqb_neq; lia).
    rewrite (Hf e) by (done || lia).
    replace (Z.of_nat (S k) - 1) with (Z.of_nat k) by lia.
    destruct (IH fuel (S n)) as (e' & He' & ->); [lia | done | |].
    { intros j e0 Hj. apply Hfmt. lia. }
    replace (n + S k)%nat with (S n + k)%nat by lia.
    exists e'. split; [done|]. do 2 f_equal.
Qed.
End fetcher.







(** ** The sink *)

Lemma written_app f1 f2 : written (f1 ++ f2) = written f1 ++ written f2.
Proof. unfold written. apply omap_app. Qed.

Lemma written_with_rows f trades :
  written (with_rows f trades) = written f ++ (row_of <$> trades).
Proof.
  unfold with_rows. rewrite written_app. f_equal.
  induction trades as [|t trades IH]; [done|].
  cbn. unfold written in IH. by rewrite IH.
Qed.

Lemma written_with_batch f trades :
  written (with_batch f trades) = written f ++ (row_of <$> trades).
Proof.
  unfold with_batch. rewrite written_app, written_with_rows. simpl.
  by rewrite app_nil_r.
Qed.

Lemma with_rows_cons f t trades :
  with_rows (f ++ [FWrite (row_of t)]) trades = with_rows f (t :: trades).
Proof. unfold with_rows. by rewrite <- app_assoc. Qed.

(** What the loop over the rows does: it writes the rows up to the
    first one that cannot be encoded. *)
Lemma write_rows_spec trades : ∀ f r f',
  write_rows f trades = (r, f') →
  ∃ wrote,
    f' = with_rows f wrote
    ∧ Forall (λ t, writable t = true) wrote
    ∧ ((r = Ok () ∧ wrote = trades)
       ∨ (r = Raise UnicodeEncodeError
          ∧ ∃ bad rest, trades = wrote ++ bad :: rest ∧ writable bad = false)).
Proof.
  induction trades as [|t trades IH]; intros f r f' H; simpl in H.
  - injection H as <- <-. exists []. unfold with_rows. simpl.
    rewrite app_nil_r. split; [done|]. split; [constructor|]. by left.
  - destruct (writable t) eqn:Ht.
    + apply IH in H as (wrote & -> & Hwrote & Hcase).
      exists (t :: wrote). rewrite with_rows_cons. split; [done|].
      split; [by constructor|].
      destruct Hcase as [[-> ->]|(-> & bad & rest & -> & Hbad)]; [by left|].
      right. split; [done|]. by exists bad, rest.
    + injection H as <- <-. exists []. unfold with_rows. simpl.
      rewrite app_nil_r. split; [done|]. split; [constructor|].
      right. split; [done|]. by exists t, trades.
Qed.

Lemma addTrades_spec f trades r f' :
  addTrades f trades = (r, f') →
  ∃ wrote,
    Forall (λ t, writable t = true) wrote
    ∧ ((r = Ok () ∧ wrote = trades ∧ f' = with_batch f trades)
       ∨ (r = Raise UnicodeEncodeError ∧ f' = with_rows f wrote
          ∧ ∃ bad rest, trades = wrote ++ bad :: rest ∧ writable bad = false)).
Proof.
  unfold addTrades. destruct (write_rows f trades) as [r0 f0] eqn:E.
  apply write_rows_spec in E
    as (wrote & -> & Hwrote & [[-> Heq]|(-> & bad & rest & Heq & Hbad)]);
    intros [= <- <-]; exists wrote; (split; [done|]).
  - left. by rewrite Heq.
  - right. split; [done|]. split; [done|]. by exists bad, rest.
Qed.

Lemma addTrades_ok f trades :
  Forall (λ t, writable t = true) trades →
  addTrades f trades = (Ok (), with_batch f trades).
Proof.
  intros Hw. destruct (addTrades f trades) as [r f'] eqn:E.
  apply addTrades_spec in E
    as (wrote & _ & [(-> & _ & ->)|(_ & _ & bad & rest & -> & Hbad)]); [done|].
  apply Forall_app in Hw as [_ Hw]. inversion Hw; congruence.
Qed.

Lemma addTrades_raise f trades :
  ¬ Forall (λ t, writable t = true) trades →
  ∃ wrote bad rest,
    addTrades f trades = (Raise UnicodeEncodeError, with_rows f wrote)
    ∧ trades = wrote ++ bad :: rest
    ∧ Forall (λ t, writable t = true) wrote ∧ writable bad = false.
Proof.
  intros Hw. destruct (addTrades f trades) as [r f'] eqn:E.
  apply addTrades_spec in E
    as (wrote & Hwrote & [(_ & -> & _)|(-> & -> & bad & rest & Heq & Hbad)]);
    [done|].
  by exists wrote, bad, rest.
Qed.

Lemma addTrades_written f trades r f' :
  addTrades f trades = (r, f') →
  ∃ wrote, wrote `prefix_of` trades
          ∧ written f' = written f ++ (row_of <$> wrote).
Proof.
  intros (wrote & _ & [(_ & _ & ->)|(_ & -> & bad & rest & -> & _)])
    %addTrades_spec.
  - exists trades. split; [done|]. apply written_with_batch.
  - exists wrote. split; [by eexists|]. apply written_with_rows.
Qed.

Lemma addTrades_prefix f trades r f' :
  addTrades f trades = (r, f') → f `prefix_of` f'.
Proof.
  intros (wrote & _ & [(_ & _ & ->)|(_ & -> & _)])%addTrades_spec.
  - unfold with_batch, with_rows. rewrite <- app_assoc. by eexists.
  - by eexists.
Qed.

Lemma written_prefix f f' x : f `prefix_of` f' → x ∈ written f → x ∈ written f'.
Proof.
  intros [k ->] Hx. rewrite written_app. apply elem_of_app. by left.
Qed.

(** A row that stands behind rows that can be written is written. *)
Lemma write_rows_reaches before : ∀ f t after r f',
  write_rows f (before ++ t :: after) = (r, f') →
  Forall (λ u, writable u = true) before →
  writable t = true →
  row_of t ∈ written f'.
Proof.
  induction before as [|u before IH]; intros f t after r f' H Hb Ht; simpl in H.
  - rewrite Ht in H. apply write_rows_spec in H as (wrote & -> & _).
    rewrite written_with_rows, written_app. simpl.
    rewrite !elem_of_app. left. right. apply list_elem_of_here.
  - inversion Hb as [|? ? Hu Hb']; subst. rewrite Hu in H. by eapply IH.
Qed.

Lemma addTrades_reaches f before t after r f' :
  addTrades f (before ++ t :: after) = (r, f') →
  Forall (λ u, writable u = true) before →
  writable t = true →
  row_of t ∈ written f'.
Proof.
  unfold addTrades.
  destruct (write_rows f (before ++ t :: after)) as [r0 f0] eqn:E.
  intros H Hb Ht. pose proof (write_rows_reaches _ _ _ _ _ _ E Hb Ht) as Hin.
  destruct r0; injection H as <- <-; [|done].
  rewrite written_app. apply elem_of_app. by left.
Qed.

(** ** The range walker *)

Lemma length_zero_cons {A} (x : A) l : (Z.of_nat (length (x :: l)) =? 0) = false.
Proof. apply Z.eqb_neq. simpl. lia. Qed.

Section walker.
Context (srv : server) (currency : string) (tidEnd : Z).

(** A page that [download_trades_since] hands over comes out of the
    page filter, and the date of its cursor could be computed. *)
Lemma download_trades_since_inv fuel tid retries n trades n' :
  download_trades_since fuel srv currency tid retries n
  = Some (Ok trades, n') →
  Trades_inv trades.
Proof.
  unfold download_trades_since. intros H.
  destruct (tid_to_datetime (PyInt tid)); [|done].
  destruct (download_trades_retry _ _ _ _ _ _) as [[[resp|e] m]|]; [|done..].
  destruct (return_member resp) as [entries|]; [|done].
  injection H as H <-. by apply Trades_init_ok in H as [_ ?].
Qed.

Lemma download_trades_body_fuel fuel fuel' tradesFile tid n p :
  (fuel ≤ fuel')%nat →
  download_trades_body fuel srv tradesFile currency tid tidEnd n = Some p →
  download_trades_body fuel' srv tradesFile currency tid tidEnd n = Some p.
Proof.
  intros Hle. unfold download_trades_body.
  destruct (download_trades_since fuel _ _ _ _ _) as [out|] eqn:E; [|done].
  by rewrite (download_trades_since_fuel _ _ _ _ _ _ _ _ Hle E).
Qed.

Lemma download_trades_fuel fuel : ∀ fuel' tradesFile tid n out,
  (fuel ≤ fuel')%nat →
  download_trades fuel srv tradesFile currency tid tidEnd n = Some out →
  download_trades fuel' srv tradesFile currency tid tidEnd n = Some out.
Proof.
  induction fuel as [|fuel IH]; intros fuel' tradesFile tid n out Hle H; [done|].
  destruct fuel' as [|fuel']; [lia|].
  cbn [download_trades] in *.
  destruct (download_trades_body (S fuel) _ _ _ _ _ _) as [p|] eqn:E; [|done].
  rewrite (download_trades_body_fuel _ (S fuel') _ _ _ _ Hle E).
  destruct p; [done|]. apply IH; [lia | done].
Qed.

(** The three ways a pass over a fetched page ends. *)
Lemma download_trades_body_page fuel tradesFile tid n trades n' :
  download_trades_since fuel srv currency tid 3 n = Some (Ok trades, n') →
  download_trades_body fuel srv tradesFile currency tid tidEnd n
  = Some
      match getLast trades with
      | None => Stop (Ok ()) tradesFile n'
      | Some last =>
          if getId last <? tidEnd then
            match addTrades tradesFile (getTrades trades) with
            | (Ok _, tradesFile') => Next tradesFile' (getId last + 1) n'
            | (Raise e, tradesFile') => Stop (Raise e) tradesFile' n'
            end
          else
            let '(r, tradesFile') :=
              addTrades tradesFile
                (filter (λ trade, getId trade < tidEnd) (getTrades trades)) in
            Stop r tradesFile' n'
      end.
Proof.
  intros H. pose proof (download_trades_since_inv _ _ _ _ _ _ H) as [_ Hln _ _].
  unfold download_trades_body. rewrite H.
  destruct (getLast trades) as [last|].
  - destruct (getTrades trades) as [|t ts] eqn:E.
    + by destruct Hln as [_ Hln]; specialize (Hln eq_refl).
    + rewrite length_zero_cons. destruct (getId last <? tidEnd).
      * by destruct (addTrades _ _) as [[|] ?].
      * by destruct (addTrades _ _).
  - destruct Hln as [Hln _]. by rewrite (Hln eq_refl).
Qed.

(** A pass only appends to the file. *)
Lemma download_trades_body_prefix fuel tradesFile tid n p :
  download_trades_body fuel srv tradesFile currency tid tidEnd n = Some p →
  tradesFile `prefix_of` pass_file p.
Proof.
  unfold download_trades_body. intros H.
  destruct (download_trades_since _ _ _ _ _ _) as [[[trades|e] n']|]; [| |done].
  - destruct (_ =? 0); [by injection H as <-|].
    destruct (getLast trades) as [last|]; [|by injection H as <-].
    destruct (_ <? _).
    + destruct (addTrades _ _) as [[|] f'] eqn:E;
        apply addTrades_prefix in E; by injection H as <-.
    + destruct (addTrades _ _) as [r f'] eqn:E.
      apply addTrades_prefix in E. by injection H as <-.
  - by injection H as <-.
Qed.

Lemma download_trades_prefix fuel : ∀ tradesFile tid n r tradesFile' n',
  download_trades fuel srv tradesFile currency tid tidEnd n
  = Some (r, tradesFile', n') →
  tradesFile `prefix_of` tradesFile'.
Proof.
  induction fuel as [|fuel IH]; intros tradesFile tid n r tradesFile' n' H;
    [done|].
  cbn [download_trades] in H.
  destruct (download_trades_body _ _ _ _ _ _ _) as [p|] eqn:E; [|done].
  apply download_trades_body_prefix in E.
  destruct p as [r0 f0 n0|f0 tid0 n0]; simpl in E.
  - by injection H as _ <- _.
  - etrans; [exact E|]. by eapply IH.
Qed.
End walker.

(** ** Progress of the cursor *)

Lemma Trade_init_tid entry t : Trade_init entry = Ok t → getId t = entry_tid entry.
Proof.
  unfold Trade_init, entry_tid, getitem. intros H.
  destruct (entry !! "tid") as [v|]; simpl in H; [|done].
  destruct (int v) as [z|]; simpl in H; [|done].
  repeat
    match type of H with
    | context [mbind _ ?r] => destruct r; simpl in H; [|done]
    end.
  by injection H as <-.
Qed.

Lemma download_trades_impl_ok srv n currency tid response :
  download_trades_impl srv n currency tid = Ok response →
  ∃ content_type,
    srv n (upper_string currency) tid = Reply content_type (Some response).
Proof.
  unfold download_trades_impl. intros H.
  destruct (srv n _ tid) as [msg|ct [resp|]]; [done| |by destruct (negb _)].
  destruct (negb _); [done|].
  destruct (result_member resp) as [r|]; [|done].
  case_bool_decide; [by destruct r|]. injection H as ->. by exists ct.
Qed.

Lemma download_trades_retry_ok srv currency tid fuel : ∀ retries n response n',
  download_trades_retry fuel srv currency tid retries n
  = Some (Ok response, n') →
  ∃ m, download_trades_impl srv m currency tid = Ok response.
Proof.
  induction fuel as [|fuel IH]; intros retries n response n' H; [done|].
  simpl in H.
  destruct (download_trades_impl srv n currency tid) as [r|e] eqn:E.
  - injection H as -> _. by exists n.
  - destruct (retries =? 0); [done|].
    destruct (format_exn e); [|done]. by eapply IH.
Qed.

(** The page that [download_trades_since] hands over is the filtered
    answer of the server to a request at the cursor. *)
Lemma download_trades_since_page srv currency tid fuel retries n trades n' :
  download_trades_since fuel srv currency tid retries n
  = Some (Ok trades, n') →
  ∃ m content_type response entries,
    srv m (upper_string currency) tid = Reply content_type (Some response)
    ∧ return_member response = Some entries
    ∧ Trades_init entries = Ok trades.
Proof.
  intros H. unfold download_trades_since in H.
  destruct (tid_to_datetime (PyInt tid)); [|done].
  destruct (download_trades_retry _ _ _ _ _ _) as [[[resp|e] m]|] eqn:E;
    [|done..].
  destruct (return_member resp) as [entries|] eqn:Hret; [|done].
  injection H as H <-.
  apply download_trades_retry_ok in E as [k [ct Hsrv]%download_trades_impl_ok].
  by exists k, ct, resp, entries.
Qed.

Lemma download_trades_since_forward srv currency tid fuel retries n trades n' :
  forward srv →
  download_trades_since fuel srv currency tid retries n
  = Some (Ok trades, n') →
  Forall (λ t, tid ≤ getId t) (getTrades trades).
Proof.
  intros Hfw (k & ct & resp & entries & Hsrv & Hret & H)
    %download_trades_since_page.
  specialize (Hfw _ _ _ _ _ _ Hsrv Hret).
  apply Trades_init_ok in H as [Hdec _].
  eapply Forall2_Forall_r; [exact Hdec|].
  eapply Forall_impl; [exact Hfw|]. simpl.
  intros x Hx t Ht. by rewrite (Trade_init_tid _ _ Ht).
Qed.

Lemma download_trades_since_advancing srv currency tid fuel retries n trades n'
    last :
  advancing srv →
  download_trades_since fuel srv currency tid retries n
  = Some (Ok trades, n') →
  getLast trades = Some last →
  tid ≤ getId last.
Proof.
  intros Hadv (k & ct & resp & entries & Hsrv & Hret & H)
    %download_trades_since_page Hlast.
  specialize (Hadv _ _ _ _ _ _ Hsrv Hret).
  apply Trades_init_ok in H as [Hdec [_ Hln _ Hmax]].
  destruct (Hmax _ Hlast) as [_ Hle].
  destruct Hadv as [Hnil|Hex].
  - rewrite Hnil in Hdec. apply Forall2_nil_inv_l in Hdec.
    apply Hln in Hdec. congruence.
  - apply Exists_exists in Hex as (x & Hx & Hge).
    apply list_elem_of_lookup in Hx as [i Hi].
    destruct (Forall2_lookup_l _ _ _ _ _ Hdec Hi) as (t & Ht & Hxt).
    apply list_elem_of_lookup_2 in Ht. apply Hle in Ht.
    rewrite (Trade_init_tid _ _ Hxt) in Ht. lia.
Qed.

Lemma forward_advancing srv : forward srv → advancing srv.
Proof.
  intros Hfw n currency since ct response entries Hsrv Hret.
  specialize (Hfw _ _ _ _ _ _ Hsrv Hret).
  destruct (kept entries) as [|x l]; [by left|].
  right. apply Exists_cons_hd. by inversion Hfw.
Qed.

(** A pass that goes on has fetched a page whose last trade is below
    [tidEnd], has written the whole page, and moves the cursor right
    after that trade. *)
Lemma download_trades_body_next srv currency tidEnd fuel tradesFile nextTid n
    tradesFile' nextTid' n' :
  download_trades_body fuel srv tradesFile currency nextTid tidEnd n
  = Some (Next tradesFile' nextTid' n') →
  ∃ trades last,
    download_trades_since fuel srv currency nextTid 3 n = Some (Ok trades, n')
    ∧ getLast trades = Some last
    ∧ getId last < tidEnd
    ∧ nextTid' = getId last + 1
    ∧ tradesFile' = with_batch tradesFile (getTrades trades).
Proof.
  unfold download_trades_body. intros H.
  destruct (download_trades_since _ _ _ _ _ _) as [[[trades|e] m]|]; [|done..].
  destruct (_ =? 0); [done|].
  destruct (getLast trades) as [last|] eqn:Hlast; [|done].
  destruct (Z.ltb_spec (getId last) tidEnd).
  - destruct (addTrades _ _) as [[[]|e] f'] eqn:E; [|done].
    injection H as <- <- <-. exists trades, last.
    apply addTrades_spec in E
      as (wrote & _ & [(_ & _ & ->)|(? & _)]); [|done].
    repeat split; done.
  - by destruct (addTrades _ _).
Qed.

(** With the budget of 3 the page fetcher always answers. *)
Lemma download_trades_body_ends srv currency tidEnd fuel tradesFile nextTid n :
  (4 ≤ fuel)%nat →
  ∃ p, download_trades_body fuel srv tradesFile currency nextTid tidEnd n
       = Some p.
Proof.
  intros Hfuel. unfold download_trades_body, download_trades_since.
  destruct (tid_to_datetime (PyInt nextTid)); [|by eexists].
  destruct (download_trades_retry_ends srv currency nextTid 3 fuel n)
    as (r & n' & Hloop & _); [lia|].
  change (Z.of_nat 3) with 3 in Hloop. rewrite Hloop.
  destruct r as [resp|e]; [|by eexists].
  destruct (return_member resp) as [entries|]; [|by eexists].
  destruct (Trades_init entries) as [trades|e]; [|by eexists].
  destruct (_ =? 0); [by eexists|].
  destruct (getLast trades) as [last|]; [|by eexists].
  destruct (getId last <? tidEnd).
  - destruct (addTrades _ _) as [[|] ?]; by eexists.
  - destruct (addTrades _ _); by eexists.
Qed.

Lemma stale_server_body fuel tradesFile nextTid n :
  is_ok (tid_to_datetime (PyInt nextTid)) = true →
  download_trades_body (S fuel) stale_server tradesFile "USD" nextTid 20 n
  = Some (Next (with_batch tradesFile (getTrades stale_page)) 6 (S n)).
Proof.
  intros H. unfold download_trades_body, download_trades_since.
  by destruct (tid_to_datetime (PyInt nextTid)).
Qed.

Lemma stale_server_runs fuel : ∀ tradesFile nextTid n,
  is_ok (tid_to_datetime (PyInt nextTid)) = true →
  download_trades fuel stale_server tradesFile "USD" nextTid 20 n = None.
Proof.
  induction fuel as [|fuel IH]; intros tradesFile nextTid n H; [done|].
  cbn [download_trades]. rewrite stale_server_body by done. by apply IH.
Qed.


Lemma download_trades_advancing_ends srv currency tidEnd :
  advancing srv →
  ∀ (k : nat) fuel tradesFile nextTid n,
    tidEnd - nextTid ≤ Z.of_nat k →
    (k + 5 ≤ fuel)%nat →
    ∃ out, download_trades fuel srv tradesFile currency nextTid tidEnd n
           = Some out.
Proof.
  intros Hadv k.
  induction k as [|k IH]; intros fuel tradesFile nextTid n Hk Hfuel;
    (destruct fuel as [|fuel]; [lia|]); cbn [download_trades];
    destruct (download_trades_body_ends srv currency tidEnd (S fuel) tradesFile
                nextTid n) as [p Hp]; try lia; rewrite Hp;
    (destruct p as [r f' n'|f' tid' n']; [by eexists|]);
    apply download_trades_body_next in Hp
      as (trades & last & Hpage & Hlast & Hlt & -> & ->);
    pose proof (download_trades_since_advancing _ _ _ _ _ _ _ _ _
                  Hadv Hpage Hlast) as Hge.
  - lia.
  - apply IH; lia.
Qed.


(** ** The mock source *)

Lemma mock_server_forward limit known : forward (mock_server limit known).
Proof.
  intros n currency since ct response entries [= <- <-] [= <-].
  unfold kept, mock_page. apply Forall_forall.
  intros x [_ Hx]%list_elem_of_filter.
  apply subseteq_take in Hx.
  by apply list_elem_of_filter in Hx as [? _].
Qed.

(** The server with overlapping pages does not answer forward, and makes
    the cursor advance. *)
Lemma overlap_server_advancing :
  entry_tid <$> overlap_entries 201 = [200; 201; 249; 250]
  ∧ ¬ forward overlap_server
  ∧ advancing overlap_server.
Proof.
  split; [by vm_compute|]. split.
  - intros Hfw.
    specialize (Hfw 0%nat "USD" 201 _ _ _ eq_refl eq_refl).
    apply Forall_inv in Hfw. vm_compute in Hfw. by apply Hfw.
  - intros n currency since ct resp entries [= <- <-] [= <-].
    unfold overlap_entries.
    destruct (filter (λ entry, since ≤ entry_tid entry) overlap_known)
      as [|x l] eqn:E; [by left|].
    right. apply Exists_exists. exists x.
    assert (x ∈ filter (λ entry, since ≤ entry_tid entry) overlap_known)
      as [Hge Hin]%list_elem_of_filter
      by (rewrite E; apply list_elem_of_here).
    split; [|done].
    apply list_elem_of_filter. split.
    + unfold overlap_known in Hin.
      rewrite !elem_of_cons, elem_of_nil in Hin.
      by destruct Hin as [->|[->|[->|[->|[]]]]].
    + apply list_elem_of_filter. split; [lia | done].
Qed.


(** ** The final page *)




(** ** No lower bound *)




Lemma filter_all {A} (P : A → Prop) `{!∀ x, Decision (P x)} (l : list A) :
  Forall P l → filter P l = l.
Proof.
  induction 1 as [|x l Hx Hl IH]; [done|].
  by rewrite filter_cons_True, IH.
Qed.

Lemma filter_none {A} (P : A → Prop) `{!∀ x, Decision (P x)} (l : list A) :
  Forall (λ x, ¬ P x) l → filter P l = [].
Proof.
  induction 1 as [|x l Hx Hl IH]; [done|].
  by rewrite filter_cons_False, IH.
Qed.

Lemma well_formed_decodes page :
  Forall well_formed page → ∃ ts, Forall2 decodes page ts.
Proof.
  induction 1 as [|x page [_ (t & Hx & _)] _ [ts IH]]; [by exists []|].
  exists (t :: ts). by constructor.
Qed.

Lemma well_formed_writable page ts :
  Forall well_formed page →
  Forall2 decodes page ts →
  Forall (λ t, writable t = true) ts.
Proof.
  intros Hwf Hdec. induction Hdec as [|x t page ts Hx _ IH]; [constructor|].
  inversion Hwf as [|? ? [_ (t' & Ht' & Hw)] Hwf']; subst.
  constructor; [|by apply IH]. unfold decodes in Hx. congruence.
Qed.

Lemma writable_filter (P : Trade → Prop) `{!∀ t, Decision (P t)} ts :
  Forall (λ t, writable t = true) ts →
  Forall (λ t, writable t = true) (filter P ts).
Proof.
  rewrite !Forall_forall. intros Hw t [_ Ht]%list_elem_of_filter. by apply Hw.
Qed.

Lemma Trades_init_well_formed page :
  Forall well_formed page →
  ∃ trades, Trades_init page = Ok trades
            ∧ Forall2 decodes page (getTrades trades)
            ∧ Trades_inv trades.
Proof.
  intros Hwf. destruct (well_formed_decodes page Hwf) as [ts Hts].
  assert (Hkept : kept page = page).
  { apply filter_all. eapply Forall_impl; [exact Hwf|]. by intros x [? _]. }
  eexists. split.
  - apply Trades_loop_complete with (new := ts).
    + eapply Forall_impl; [exact Hwf|]. intros x [-> _]. by eexists.
    + by rewrite Hkept.
  - split.
    + by rewrite foldl_Trades_store_trades.
    + apply foldl_Trades_store_inv, Trades_inv_empty.
Qed.

(** The page the mock source serves at a cursor that splits the known
    entries. *)
Lemma mock_page_split limit before after since :
  Forall (λ x, entry_tid x < since) before →
  Forall (λ x, since ≤ entry_tid x) after →
  mock_page limit (before ++ after) since = take limit after.
Proof.
  intros Hb Ha. unfold mock_page. rewrite filter_app.
  rewrite (filter_none _ before), (filter_all _ after); [done..|].
  eapply Forall_impl; [exact Hb|]. simpl. lia.
Qed.

Lemma mock_server_since limit known currency since fuel n :
  is_ok (tid_to_datetime (PyInt since)) = true →
  download_trades_since (S fuel) (mock_server limit known) currency since 3 n
  = Some (Trades_init (mock_page limit known since), S n).
Proof.
  intros H. unfold download_trades_since.
  by destruct (tid_to_datetime (PyInt since)).
Qed.

Lemma decodes_tid x t : decodes x t → getId t = entry_tid x.
Proof. apply Trade_init_tid. Qed.

Lemma Forall2_decodes_elem_of page ts t :
  Forall2 decodes page ts → t ∈ ts → ∃ x, x ∈ page ∧ decodes x t.
Proof.
  induction 1 as [|x t' page ts Hx _ IH]; intros Ht.
  - by apply elem_of_nil in Ht.
  - apply elem_of_cons in Ht as [->|Ht].
    + exists x. split; [apply list_elem_of_here | done].
    + destruct (IH Ht) as (y & Hy & Hdec). exists y.
      split; [by apply list_elem_of_further | done].
Qed.

Lemma Forall2_decodes_elem_of_l page ts x :
  Forall2 decodes page ts → x ∈ page → ∃ t, t ∈ ts ∧ decodes x t.
Proof.
  induction 1 as [|x' t page ts Hx _ IH]; intros Hin.
  - by apply elem_of_nil in Hin.
  - apply elem_of_cons in Hin as [->|Hin].
    + exists t. split; [apply list_elem_of_here | done].
    + destruct (IH Hin) as (t' & Ht' & Hdec). exists t'.
      split; [by apply list_elem_of_further | done].
Qed.

Section mock_walk.
Context (limit : nat) (known : list (gmap string pyval))
        (currency : string) (tidBegin tidEnd : Z).
Hypothesis limit_pos : (0 < limit)%nat.
Hypothesis known_sorted :
  StronglySorted (λ x y, entry_tid x < entry_tid y) known.
Hypothesis known_well_formed : Forall well_formed known.
Hypothesis cursor_dates :
  ∀ c, tidBegin ≤ c ≤ tidEnd → is_ok (tid_to_datetime (PyInt c)) = true.

(** The walker, started at a cursor that splits the known entries,
    writes the entries at or after the cursor that are below
    [tidEnd]. *)
Lemma mock_walk fuel : ∀ before after tradesFile since n,
  known = before ++ after →
  Forall (λ x, entry_tid x < since) before →
  Forall (λ x, since ≤ entry_tid x) after →
  tidBegin ≤ since ≤ tidEnd →
  (length after < fuel)%nat →
  ∃ trades tradesFile' n',
    download_trades fuel (mock_server limit known) tradesFile currency
      since tidEnd n
    = Some (Ok (), tradesFile', n')
    ∧ Forall2 decodes (filter (λ x, entry_tid x < tidEnd) after) trades
    ∧ written tradesFile' = written tradesFile ++ (row_of <$> trades).
Proof.
  induction fuel as [|fuel IH];
    intros before after tradesFile since n Hknown Hbefore Hafter Hsince_in Hfuel;
    [lia|].
  cbn [download_trades].
  pose proof (mock_server_since limit known currency since fuel n
                (cursor_dates _ Hsince_in)) as Hsince.
  rewrite Hknown, (mock_page_split _ _ _ _ Hbefore Hafter) in Hsince.
  rewrite <- Hknown in Hsince.
  assert (Hwf : Forall well_formed after).
  { rewrite Hknown in known_well_formed.
    by apply Forall_app in known_well_formed as [_ ?]. }
  destruct (Trades_init_well_formed (take limit after))
    as (page & Hinit & Hdec & Hinv); [by apply Forall_take|].
  assert (Hwr : Forall (λ t, writable t = true) (getTrades page)).
  { eapply well_formed_writable; [|exact Hdec]. by apply Forall_take. }
  rewrite Hinit in Hsince.
  rewrite (download_trades_body_page _ _ _ _ _ _ _ _ _ Hsince).
  destruct Hinv as [_ Hln _ Hmax].
  destruct (getLast page) as [last|] eqn:Hlast.
  - destruct (Hmax last eq_refl) as [Hin Hle].
    destruct (Forall2_decodes_elem_of _ _ _ Hdec Hin) as (x & Hx & Hxlast).
    pose proof (decodes_tid _ _ Hxlast) as Hid.
    rewrite <- (take_drop limit after) in Hknown, Hafter.
    assert (Hsorted := known_sorted). rewrite Hknown in Hsorted.
    apply StronglySorted_app_1_r in Hsorted.
    assert (Hrest : Forall (λ y, getId last < entry_tid y) (drop limit after)).
    { apply Forall_forall. intros y Hy. rewrite Hid.
      by apply (StronglySorted_app_1_elem_of _ _ _ _ _ Hsorted). }
    assert (Hpage : Forall (λ y, entry_tid y ≤ getId last) (take limit after)).
    { apply Forall_forall. intros y Hy.
      destruct (Forall2_decodes_elem_of_l _ _ _ Hdec Hy) as (t & Ht & Hyt).
      rewrite <- (decodes_tid _ _ Hyt). by apply Hle. }
    assert (Hsplit : filter (λ y, entry_tid y < tidEnd) after
                     = filter (λ y, entry_tid y < tidEnd) (take limit after)
                       ++ filter (λ y, entry_tid y < tidEnd) (drop limit after))
      by (by rewrite <- filter_app, take_drop).
    rewrite Hsplit.
    assert (Hsince_last : since ≤ getId last).
    { apply Forall_app in Hafter as [Htake _].
      rewrite Forall_forall in Htake. specialize (Htake _ Hx). lia. }
    destruct (Z.ltb_spec (getId last) tidEnd) as [Hlt|Hge].
    + rewrite (addTrades_ok _ _ Hwr).
      destruct (IH (before ++ take limit after) (drop limit after)
                  (with_batch tradesFile (getTrades page)) (getId last + 1)
                  (S n)) as (trades & f' & n' & Hrun & Hrest' & Hw).
      * by rewrite <- app_assoc.
      * apply Forall_app. split.
        -- eapply Forall_impl; [exact Hbefore|]. simpl. lia.
        -- eapply Forall_impl; [exact Hpage|]. simpl. lia.
      * eapply Forall_impl; [exact Hrest|]. simpl. lia.
      * lia.
      * rewrite length_drop.
        assert (after ≠ []) by (intros ->; by rewrite take_nil in Hx;
                                apply elem_of_nil in Hx).
        destruct after; [done|]. simpl in *. lia.
      * exists (getTrades page ++ trades), f', n'. split; [done|]. split.
        -- apply Forall2_app; [|done].
           rewrite filter_all; [done|].
           eapply Forall_impl; [exact Hpage|]. simpl. lia.
        -- rewrite Hw, written_with_batch, fmap_app. by rewrite <- app_assoc.
    + rewrite addTrades_ok by (by apply writable_filter).
      eexists _, _, _. split; [done|]. split; [|apply written_with_batch].
      rewrite (filter_none _ (drop limit after)), app_nil_r.
      * apply Forall2_filter; [|done].
        intros y t Hyt. by rewrite (decodes_tid _ _ Hyt).
      * eapply Forall_impl; [exact Hrest|]. simpl. lia.
  - destruct Hln as [Hln _]. specialize (Hln eq_refl).
    rewrite Hln in Hdec. apply Forall2_nil_inv_r in Hdec.
    apply take_nil_inv in Hdec as [->| ->]; [lia|].
    exists [], tradesFile, (S n). split; [done|]. split; [constructor|].
    by rewrite app_nil_r.
Qed.
End mock_walk.

Lemma sorted_split known since :
  StronglySorted (λ x y, entry_tid x < entry_tid y) known →
  ∃ before,
    known = before ++ filter (λ x, since ≤ entry_tid x) known
    ∧ Forall (λ x, entry_tid x < since) before.
Proof.
  induction 1 as [|x known Hsorted [before [IH Hbefore]] Hx].
  - by exists [].
  - destruct (decide (since ≤ entry_tid x)) as [Hle|Hlt].
    + exists []. split; [|done]. simpl. symmetry. apply filter_all.
      constructor; [done|]. eapply Forall_impl; [exact Hx|]. simpl. lia.
    + exists (x :: before). rewrite filter_cons_False by done.
      split; [simpl; by f_equal | constructor; [lia | done]].
Qed.

Lemma StronglySorted_filter {A} (R : relation A) (P : A → Prop)
    `{!∀ x, Decision (P x)} (l : list A) :
  StronglySorted R l → StronglySorted R (filter P l).
Proof.
  induction 1 as [|x l Hl IH Hx]; [constructor|].
  rewrite filter_cons. destruct (decide (P x)); [|done].
  constructor; [done|]. apply Forall_forall.
  intros y [_ Hy]%list_elem_of_filter. rewrite Forall_forall in Hx. by apply Hx.
Qed.

Lemma decodes_ids page ts :
  Forall2 decodes page ts → getId <$> ts = entry_tid <$> page.
Proof.
  induction 1 as [|x t page ts Hx _ IH]; [done|].
  csimpl. by rewrite IH, (decodes_tid _ _ Hx).
Qed.




(** ** The sink, over a run *)

Lemma flushed_from_flush f : ∀ pending done,
  flushed_from pending done (f ++ [FFlush]) = done ++ pending ++ written f.
Proof.
  induction f as [|op f IH]; intros pending done; simpl.
  - by rewrite app_nil_r.
  - destruct op; rewrite IH; simpl; by rewrite <- ?app_assoc.
Qed.

Lemma flushed_from_rows trades : ∀ f pending done,
  flushed_from pending done (with_rows f trades) = flushed_from pending done f.
Proof.
  unfold with_rows. intros f. induction f as [|op f IH]; intros pending done.
  - simpl. revert pending.
    induction trades as [|t trades IHt]; intros pending; [done|]. apply IHt.
  - destruct op; simpl; apply IH.
Qed.

Lemma flushed_from_prefix f : ∀ pending done,
  flushed_from pending done f `prefix_of` done ++ pending ++ written f.
Proof.
  induction f as [|op f IH]; intros pending done; simpl.
  - by eexists.
  - destruct op; simpl.
    + apply IH.
    + specialize (IH (pending ++ [t]) done).
      by rewrite <- app_assoc in IH.
    + specialize (IH [] (done ++ pending)). by rewrite <- app_assoc in IH.
    + specialize (IH [] (done ++ pending)). by rewrite <- app_assoc in IH.
Qed.

Lemma flushed_prefix f : flushed f `prefix_of` written f.
Proof. apply (flushed_from_prefix f [] []). Qed.

Lemma flushed_with_batch f trades :
  flushed (with_batch f trades) = written (with_batch f trades).
Proof.
  unfold flushed, with_batch. rewrite flushed_from_flush.
  rewrite written_app. simpl. by rewrite app_nil_r.
Qed.

Lemma flushed_with_rows f trades : flushed (with_rows f trades) = flushed f.
Proof. apply flushed_from_rows. Qed.

Lemma with_rows_no_close f trades : FClose ∉ f → FClose ∉ with_rows f trades.
Proof.
  intros Hf. unfold with_rows. rewrite elem_of_app, list_elem_of_fmap.
  intros [?|(t & ? & _)]; done.
Qed.

Lemma with_batch_no_close f trades : FClose ∉ f → FClose ∉ with_batch f trades.
Proof.
  intros Hf. unfold with_batch. rewrite elem_of_app.
  intros [?%with_rows_no_close|?%list_elem_of_singleton]; done.
Qed.

(** What holds of the file before a run and is kept by every completed
    batch holds of the file after the run, or of the file as it was
    before the batch whose writing raised. *)
Lemma download_trades_file_inv (P : file → Prop) srv currency tidEnd :
  (∀ f trades, P f → P (with_batch f trades)) →
  ∀ fuel tradesFile tidBegin n r tradesFile' n',
    download_trades fuel srv tradesFile currency tidBegin tidEnd n
    = Some (r, tradesFile', n') →
    P tradesFile →
    P tradesFile'
    ∨ (r = Raise UnicodeEncodeError
       ∧ ∃ f wrote, P f ∧ tradesFile' = with_rows f wrote).
Proof.
  intros Hadd fuel.
  induction fuel as [|fuel IH]; intros tradesFile tidBegin n r tradesFile' n' H HP;
    [done|].
  cbn [download_trades] in H.
  destruct (download_trades_body _ _ _ _ _ _ _) as [p|] eqn:E; [|done].
  unfold download_trades_body in E.
  destruct (download_trades_since _ _ _ _ _ _) as [[[trades|e] m]|];
    [| |done].
  - destruct (_ =? 0); [injection E as <-; injection H as _ <- _; by left|].
    destruct (getLast trades) as [last|];
      [|injection E as <-; injection H as _ <- _; by left].
    destruct (getId last <? tidEnd).
    + destruct (addTrades _ _) as [r0 f0] eqn:Eadd.
      apply addTrades_spec in Eadd
        as (wrote & _ & [(-> & _ & ->)|(-> & -> & _)]); injection E as <-.
      * eapply IH; [exact H|]. by apply Hadd.
      * injection H as <- <- _. right. split; [done|]. by exists tradesFile, wrote.
    + destruct (addTrades _ _) as [r0 f0] eqn:Eadd.
      apply addTrades_spec in Eadd
        as (wrote & _ & [(-> & _ & ->)|(-> & -> & _)]); injection E as <-;
        injection H as <- <- _.
      * left. by apply Hadd.
      * right. split; [done|]. by exists tradesFile, wrote.
  - injection E as <-. injection H as _ <- _. by left.
Qed.

(** C8, as stated, fails: the run that is aborted by a dead server leaves
    a file on which no [close] was performed; and the run that is aborted
    within a batch leaves a row that was written and not flushed. *)
Lemma file_left_open :
  (∃ e tradesFile n,
     download_trades_to 4 dead_server "trades.csv" "USD" 1000 2000 0
     = Some (Raise e, tradesFile, n)
     ∧ FClose ∉ tradesFile)
  ∧ (∃ tradesFile,
       download_trades_to 1 accent_server "trades.csv" "USD" 1 20 0
       = Some (Raise UnicodeEncodeError, tradesFile, 1%nat)
       ∧ length (written tradesFile) = 2%nat
       ∧ length (flushed tradesFile) = 1%nat
       ∧ FClose ∉ tradesFile).
Proof.
  split.
  - eexists _, _, _. split; [by vm_compute|].
    unfold TradesFile_init. rewrite !elem_of_cons, elem_of_nil.
    intros [|[|[|]]]; done.
  - eexists. split; [by vm_compute|]. split; [by vm_compute|].
    split; [by vm_compute|].
    rewrite !elem_of_cons, elem_of_nil. intros [|[|[|[|]]]]; done.
Qed.

(** C8, amended: opening the sink writes the header row and flushes it
    before anything else; every batch that is written to its end is
    followed by a flush, while a batch whose writing raises is not; so
    whatever the walker has written by the time it returns or is aborted
    has been flushed, except for the rows of a batch whose writing
    raised; the file is never closed, on no path. *)
Theorem sink_discipline (srv : server) (csvFile currency : string)
    (tidBegin tidEnd : Z) (fuel n n' : nat) (r : result ())
    (tradesFile : file) :
  download_trades_to fuel srv csvFile currency tidBegin tidEnd n
  = Some (r, tradesFile, n') →
  [FOpen csvFile "w"; FWrite (Literal ("id,price,amount,type" +:+ newline));
   FFlush] `prefix_of` tradesFile
  ∧ head (written tradesFile)
    = Some (Literal ("id,price,amount,type" +:+ newline))
  ∧ (∀ f trades f', addTrades f trades = (Ok (), f') →
       flushed f' = written f')
  ∧ (∀ f trades e f', addTrades f trades = (Raise e, f') →
       flushed f' = flushed f)
  ∧ (flushed tradesFile = written tradesFile
     ∨ (r = Raise UnicodeEncodeError
        ∧ ∃ f wrote, tradesFile = with_rows f wrote
                     ∧ flushed f = written f
                     ∧ flushed tradesFile = written f))
  ∧ (r = Ok () → flushed tradesFile = written tradesFile)
  ∧ flushed tradesFile `prefix_of` written tradesFile
  ∧ FClose ∉ tradesFile.
Proof.
  unfold download_trades_to. intros Hrun.
  pose proof (download_trades_prefix _ _ _ _ _ _ _ _ _ _ Hrun) as Hpre.
  split; [exact Hpre|]. split.
  { destruct Hpre as [k ->]. done. }
  split.
  { intros f trades f' (wrote & _ & [(_ & _ & ->)|(? & _)])%addTrades_spec;
      [|done]. apply flushed_with_batch. }
  split.
  { intros f trades e f' (wrote & _ & [(? & _)|(_ & -> & _)])%addTrades_spec;
      [done|]. apply flushed_with_rows. }
  apply (download_trades_file_inv
           (λ f, flushed f = written f ∧ FClose ∉ f) _ _ _) in Hrun.
  - destruct Hrun as [[Hfl Hcl]|(-> & f & wrote & [Hfl Hcl] & ->)].
    + split; [by left|]. split; [done|]. split; [|done].
      apply flushed_prefix.
    + split.
      { right. split; [done|]. exists f, wrote.
        by rewrite flushed_with_rows. }
      split; [done|]. split; [apply flushed_prefix|].
      by apply with_rows_no_close.
  - intros f trades [_ Hclose]. split.
    + apply flushed_with_batch.
    + by apply with_batch_no_close.
  - split; [done|]. unfold TradesFile_init.
    rewrite !elem_of_cons, elem_of_nil. intros [|[|[|]]]; done.
Qed.

Lemma sink_discipline_witness :
  download_trades_to 1 boundary_server "trades.csv" "USD" 201 250 0
  = Some (Ok (),
          with_batch (TradesFile_init "trades.csv")
            (filter (λ trade, getId trade < 250) (getTrades boundary_page)),
          1%nat)
  ∧ flushed (with_batch (TradesFile_init "trades.csv")
               (filter (λ trade, getId trade < 250) (getTrades boundary_page)))
    = written (with_batch (TradesFile_init "trades.csv")
                 (filter (λ trade, getId trade < 250)
                    (getTrades boundary_page)))
  ∧ FClose ∉ with_batch (TradesFile_init "trades.csv")
               (filter (λ trade, getId trade < 250) (getTrades boundary_page)).
Proof.
  assert (Hrun :
    download_trades_to 1 boundary_server "trades.csv" "USD" 201 250 0
    = Some (Ok (),
            with_batch (TradesFile_init "trades.csv")
              (filter (λ trade, getId trade < 250) (getTrades boundary_page)),
            1%nat)) by (by vm_compute).
  split; [exact Hrun|].
  destruct (sink_discipline boundary_server "trades.csv" "USD" 201 250 1 0 1
              (Ok ()) _ Hrun)
    as (_ & _ & _ & _ & _ & H1 & _ & H2).
  split; [by apply H1 | exact H2].
Defined.
(** * Further properties of the code *)

(** ** The record decoder reads five fields *)

(** X1: the decoder reads the fields [tid], [price_currency],
    [price_int], [amount_int] and [trade_type] and nothing else: setting
    any other field of an entry, [primary] included, leaves the outcome
    of the decoding, trade or error, as it was. *)
Theorem Trade_init_frame (trade : gmap string pyval) (k : string) (v : pyval) :
  k ∉ ["tid"; "price_currency"; "price_int"; "amount_int"; "trade_type"] →
  Trade_init (<[k := v]> trade) = Trade_init trade.
Proof.
  intros Hk. rewrite !not_elem_of_cons in Hk.
  destruct Hk as (H1 & H2 & H3 & H4 & H5 & _).
  unfold Trade_init, getitem. by rewrite !lookup_insert_ne.
Qed.

Lemma Trade_init_frame_witness :
  Trade_init (<["primary" := PyStr "N"]>
                (entry 1500 "USD" 1250000 100000000 "bid" "Y"))
  = Trade_init (entry 1500 "USD" 1250000 100000000 "bid" "Y").
Proof.
  apply Trade_init_frame. rewrite !not_elem_of_cons. repeat split; try done.
  apply not_elem_of_nil.
Defined.

(** ** The page filter skips what it does not keep *)

Lemma Trades_loop_kept page : ∀ self,
  Forall (λ entry, is_Some (entry !! "primary")) page →
  Trades_loop page self = Trades_loop (kept page) self.
Proof.
  induction page as [|e page IH]; intros self Hp; [done|].
  inversion Hp as [|? ? [p Ep] Hp']; subst. unfold kept. rewrite filter_cons.
  simpl. unfold getitem. rewrite Ep. simpl.
  case_bool_decide as Hy.
  - rewrite decide_False by congruence. by apply IH.
  - subst p. rewrite decide_True by done. simpl. unfold getitem. rewrite Ep.
    simpl. destruct (Trade_init e) as [t|]; simpl; [|done]. by apply IH.
Qed.

(** X2: an entry that is not primary is never decoded: on a page whose
    entries all carry a [primary] field, the page filter gives what it
    gives on the primary entries alone, so that a malformed mirrored
    entry does no harm. *)
Theorem Trades_init_skips_mirrors (page : list (gmap string pyval)) :
  Forall (λ entry, is_Some (entry !! "primary")) page →
  Trades_init page
  = Trades_init (filter (λ entry, entry !! "primary" = Some (PyStr "Y")) page).
Proof. intros Hp. by apply Trades_loop_kept. Qed.

Lemma Trades_init_skips_mirrors_witness :
  Trades_init [entry 100 "USD" 1250000 100000000 "bid" "Y";
               <["price_int" := PyStr "12x"]>
                 (entry 100 "EUR" 0 100000000 "bid" "N")]
  = Trades_init [entry 100 "USD" 1250000 100000000 "bid" "Y"].
Proof.
  etrans; [apply Trades_init_skips_mirrors|by vm_compute].
  repeat (apply Forall_cons_2; [vm_compute; by eexists|]). apply Forall_nil_2.
Defined.

(** ** Ties between ids *)

Lemma Trades_store_ties self t :
  Trades_inv self → Trades_ties self → Trades_ties (Trades_store self t).
Proof.
  intros [Hfn Hln _ _] [Hf Hl]. split; simpl.
  - intros f. destruct (getFirst self) as [f0|] eqn:E.
    + destruct (Hf f0 eq_refl) as (before & after & Hts & Hb & Ha).
      destruct (Z.ltb_spec (getId t) (getId f0)); intros [= <-].
      * exists (getTrades self), []. split; [done|]. split; [|constructor].
        rewrite Hts. apply Forall_app. split.
        -- eapply Forall_impl; [exact Hb|]. simpl. lia.
        -- constructor; [lia|]. eapply Forall_impl; [exact Ha|]. simpl. lia.
      * exists before, (after ++ [t]). rewrite Hts.
        split; [by rewrite <- app_assoc|]. split; [done|].
        apply Forall_app. split; [done|]. by constructor.
    + intros [= <-]. destruct Hfn as [Hfn _]. rewrite (Hfn eq_refl).
      exists [], []. by repeat split.
  - intros l. destruct (getLast self) as [l0|] eqn:E.
    + destruct (Hl l0 eq_refl) as (before & after & Hts & Hb & Ha).
      destruct (Z.gtb_spec (getId t) (getId l0)); intros [= <-].
      * exists (getTrades self), []. split; [done|]. split; [|constructor].
        rewrite Hts. apply Forall_app. split.
        -- eapply Forall_impl; [exact Hb|]. simpl. lia.
        -- constructor; [lia|]. eapply Forall_impl; [exact Ha|]. simpl. lia.
      * exists before, (after ++ [t]). rewrite Hts.
        split; [by rewrite <- app_assoc|]. split; [done|].
        apply Forall_app. split; [done|]. by constructor.
    + intros [= <-]. destruct Hln as [Hln _]. rewrite (Hln eq_refl).
      exists [], []. by repeat split.
Qed.

Lemma foldl_Trades_store_ties new : ∀ self,
  Trades_inv self → Trades_ties self →
  Trades_ties (foldl Trades_store self new).
Proof.
  induction new as [|t new IH]; intros self Hinv Hties; simpl; [done|].
  apply IH; [by apply Trades_store_inv | by apply Trades_store_ties].
Qed.

(** X3: among kept trades of equal id the earliest arrival wins: every
    trade kept before [getFirst] has a strictly greater id and every
    trade kept before [getLast] a strictly smaller one, while those kept
    after them may have the same id. *)
Theorem Trades_init_ties (page : list (gmap string pyval)) (ts : Trades) :
  Trades_init page = Ok ts →
  (∀ f, getFirst ts = Some f →
     ∃ before after,
       getTrades ts = before ++ f :: after
       ∧ Forall (λ t, getId f < getId t) before
       ∧ Forall (λ t, getId f ≤ getId t) after)
  ∧ (∀ l, getLast ts = Some l →
       ∃ before after,
         getTrades ts = before ++ l :: after
         ∧ Forall (λ t, getId t < getId l) before
         ∧ Forall (λ t, getId t ≤ getId l) after).
Proof.
  intros (new & _ & ->)%Trades_loop_ok.
  destruct (foldl_Trades_store_ties new
              {| getFirst := None; getLast := None; getTrades := [] |})
    as [Hf Hl]; [apply Trades_inv_empty | by split |]. by split.
Qed.

Lemma Trades_init_ties_witness :
  Trades_init sample_page = Ok sample_trades
  ∧ ∀ l, getLast sample_trades = Some l →
      ∃ before after,
        getTrades sample_trades = before ++ l :: after
        ∧ Forall (λ t, getId t < getId l) before
        ∧ Forall (λ t, getId t ≤ getId l) after.
Proof.
  split; [by vm_compute|].
  apply (Trades_init_ties sample_page sample_trades). by vm_compute.
Defined.

(** ** The page fetcher *)

(** X4: one request succeeds exactly when the reply has a content type
    that starts with [application/json], a body that is a JSON document
    and a [result] member equal to "success"; what is handed over is then
    that document, and the request is made for the upper-case currency. *)
Theorem download_trades_impl_ok_iff (srv : server) (n : nat)
    (currency : string) (tid : Z) (response : response) :
  download_trades_impl srv n currency tid = Ok response
  ↔ ∃ content_type,
      srv n (upper_string currency) tid = Reply content_type (Some response)
      ∧ String.prefix "application/json" content_type = true
      ∧ result_member response = Some (PyStr "success").
Proof.
  unfold download_trades_impl. split.
  - intros H. destruct (srv n _ tid) as [msg|ct [resp|]]; [done| |].
    + destruct (String.prefix _ ct) eqn:Hct; simpl in H; [|done].
      destruct (result_member resp) as [r|] eqn:Hr; [|done].
      case_bool_decide as Hs; [by destruct r|]. injection H as ->. subst r.
      by exists ct.
    + by destruct (negb _).
  - intros (ct & -> & -> & ->). done.
Qed.

Lemma download_trades_retry_succeeds srv currency tid response (k : nat) :
  ∀ retries fuel n,
    Z.of_nat k ≤ retries →
    (k < fuel)%nat →
    (∀ j, (j < k)%nat →
       is_ok (download_trades_impl srv (n + j) currency tid) = false) →
    (∀ j e, (j < k)%nat →
       download_trades_impl srv (n + j) currency tid = Raise e →
       format_exn e = Ok ()) →
    download_trades_impl srv (n + k) currency tid = Ok response →
    download_trades_retry fuel srv currency tid retries n
    = Some (Ok response, (n + k + 1)%nat).
Proof.
  induction k as [|k IH]; intros retries fuel n Hk Hfuel Hfail Hfmt Hok;
    (destruct fuel as [|fuel]; [lia|]); simpl.
  - rewrite Nat.add_0_r in Hok. rewrite Hok. do 2 f_equal. lia.
  - pose proof (Hfail 0%nat ltac:(lia)) as H0.
    pose proof (Hfmt 0%nat) as F0. rewrite Nat.add_0_r in H0, F0.
    destruct (download_trades_impl srv n currency tid) as [r|e]; [done|].
    replace (retries =? 0) with false by (symmetry; apply Z.eqb_neq; lia).
    rewrite (F0 e) by (done || lia).
    replace (n + S k + 1)%nat with (S n + k + 1)%nat by lia.
    apply IH; [lia | lia | | |].
    + intros j Hj. replace (S n + j)%nat with (n + S j)%nat by lia.
      apply Hfail. lia.
    + intros j e' Hj. replace (S n + j)%nat with (n + S j)%nat by lia.
      apply Hfmt. lia.
    + by replace (S n + k)%nat with (n + S k)%nat by lia.
Qed.

(** X5: when the date of the cursor can be computed, the first [k]
    requests fail with an error whose message the handler can format and
    the next one succeeds, with [k] within the budget,
    [download_trades_since] issues exactly [k + 1] requests and filters
    the page of the last one; nothing is requested after a success. *)
Theorem retry_until_success (srv : server) (currency : string)
    (tid retries : Z) (k fuel n : nat) (response : response) :
  Z.of_nat k ≤ retries →
  (k < fuel)%nat →
  is_ok (tid_to_datetime (PyInt tid)) = true →
  (∀ j, (j < k)%nat →
     is_ok (download_trades_impl srv (n + j) currency tid) = false) →
  (∀ j e, (j < k)%nat →
     download_trades_impl srv (n + j) currency tid = Raise e →
     format_exn e = Ok ()) →
  download_trades_impl srv (n + k) currency tid = Ok response →
  download_trades_since fuel srv currency tid retries n
  = Some (match return_member response with
          | Some entries => Trades_init entries
          | None => Raise (KeyError "return")
          end, (n + k + 1)%nat).
Proof.
  intros Hk Hfuel Hdate Hfail Hfmt Hok. unfold download_trades_since.
  destruct (tid_to_datetime (PyInt tid)); [|done].
  rewrite (download_trades_retry_succeeds srv currency tid response k)
    by done.
  by destruct (return_member response).
Qed.

Lemma retry_until_success_witness :
  download_trades_since 4 malformed_server "USD" 1000 3 0
  = Some (Trades_init [<["price_int" := PyStr "12x"]>
                         (entry 1500 "USD" 0 100000000 "bid" "Y")], 2%nat).
Proof.
  apply (retry_until_success malformed_server "USD" 1000 3 1 4 0
           {| result_member := Some (PyStr "success");
              return_member :=
                Some [<["price_int" := PyStr "12x"]>
                        (entry 1500 "USD" 0 100000000 "bid" "Y")] |}).
  - lia.
  - lia.
  - by vm_compute.
  - intros j Hj. assert (j = 0%nat) as -> by lia. by vm_compute.
  - intros j e Hj. assert (j = 0%nat) as -> by lia. vm_compute.
    by intros [= <-].
  - by vm_compute.
Defined.

Lemma download_trades_retry_negative srv currency tid fuel : ∀ retries n,
  retries < 0 →
  (∀ j, is_ok (download_trades_impl srv j currency tid) = false) →
  (∀ j e, download_trades_impl srv j currency tid = Raise e →
     format_exn e = Ok ()) →
  download_trades_retry fuel srv currency tid retries n = None.
Proof.
  induction fuel as [|fuel IH]; intros retries n Hneg Hfail Hfmt; [done|]. simpl.
  pose proof (Hfail n) as Hn. pose proof (Hfmt n) as Hf.
  destruct (download_trades_impl srv n currency tid) as [r|e]; [done|].
  replace (retries =? 0) with false by (symmetry; apply Z.eqb_neq; lia).
  rewrite (Hf e) by done. apply IH; [lia | done | done].
Qed.

(** X6: the budget is only compared with zero: with a negative budget,
    a cursor whose date can be computed and a server on which every
    request fails with an error whose message the handler can format,
    the retry loop never ends, whatever the fuel. *)
Theorem negative_budget_never_ends (srv : server) (currency : string)
    (tid retries : Z) (n : nat) :
  retries < 0 →
  is_ok (tid_to_datetime (PyInt tid)) = true →
  (∀ j, is_ok (download_trades_impl srv j currency tid) = false) →
  (∀ j e, download_trades_impl srv j currency tid = Raise e →
     format_exn e = Ok ()) →
  ∀ fuel, download_trades_since fuel srv currency tid retries n = None.
Proof.
  intros Hneg Hdate Hfail Hfmt fuel. unfold download_trades_since.
  destruct (tid_to_datetime (PyInt tid)); [|done].
  by rewrite download_trades_retry_negative.
Qed.

Lemma negative_budget_never_ends_witness :
  -1 < 0
  ∧ ∀ fuel, download_trades_since fuel dead_server "USD" 1000 (-1) 0 = None.
Proof.
  split; [lia|].
  apply negative_budget_never_ends; [lia | by vm_compute | done |].
  intros j e. vm_compute. by intros [= <-].
Defined.

(** X7: with a budget that is not negative the page fetcher ends on
    every server, after at most [retries + 1] requests; after at least
    one when the date of the cursor can be computed, and after none, with
    an error, when it cannot. *)
Theorem requests_per_page (srv : server) (currency : string)
    (tid retries : Z) (fuel n : nat) :
  0 ≤ retries →
  (Z.to_nat retries < fuel)%nat →
  ∃ r n',
    download_trades_since fuel srv currency tid retries n = Some (r, n')
    ∧ (n ≤ n')%nat ∧ Z.of_nat n' ≤ Z.of_nat n + retries + 1
    ∧ (is_ok (tid_to_datetime (PyInt tid)) = true → (n < n')%nat)
    ∧ (is_ok (tid_to_datetime (PyInt tid)) = false →
       n' = n ∧ is_ok r = false).
Proof.
  intros Hr Hfuel.
  destruct (download_trades_retry_ends srv currency tid (Z.to_nat retries)
              fuel n Hfuel) as (r & n' & Hloop & Hn').
  rewrite Z2Nat.id in Hloop by done.
  unfold download_trades_since.
  destruct (tid_to_datetime (PyInt tid)) as [d|e]; simpl.
  - rewrite Hloop.
    destruct r as [resp|e]; [destruct (return_member resp)|];
      eexists _, _; (split; [done|]); repeat split; lia || done.
  - eexists _, _. split; [done|]. repeat split; lia || done.
Qed.

Lemma requests_per_page_witness :
  ∃ r n',
    download_trades_since 4 malformed_server "USD" 1000 3 0 = Some (r, n')
    ∧ (0 ≤ n')%nat ∧ Z.of_nat n' ≤ Z.of_nat 0 + 3 + 1
    ∧ (is_ok (tid_to_datetime (PyInt 1000)) = true → (0 < n')%nat)
    ∧ (is_ok (tid_to_datetime (PyInt 1000)) = false →
       n' = 0%nat ∧ is_ok r = false).
Proof. apply requests_per_page; [lia | simpl; lia]. Defined.

(** ** The currency of a download *)

Lemma download_trades_impl_upper srv n currency tid :
  download_trades_impl srv n (upper_string currency) tid
  = download_trades_impl srv n currency tid.
Proof. unfold download_trades_impl. by rewrite upper_string_idemp. Qed.

Lemma download_trades_retry_upper srv currency tid fuel : ∀ retries n,
  download_trades_retry fuel srv (upper_string currency) tid retries n
  = download_trades_retry fuel srv currency tid retries n.
Proof.
  induction fuel as [|fuel IH]; intros retries n; [done|]. simpl.
  rewrite download_trades_impl_upper.
  destruct (download_trades_impl srv n currency tid) as [r|e]; [done|].
  destruct (retries =? 0); [done|]. by destruct (format_exn e).
Qed.

Lemma download_trades_body_upper srv currency tidEnd fuel tradesFile tid n :
  download_trades_body fuel srv tradesFile (upper_string currency) tid tidEnd n
  = download_trades_body fuel srv tradesFile currency tid tidEnd n.
Proof.
  unfold download_trades_body, download_trades_since.
  by rewrite download_trades_retry_upper.
Qed.

(** X8: a download does not depend on the case of the currency code:
    the run for a currency is the run for its upper-case form, request
    by request and row by row. *)
Theorem download_trades_upper (srv : server) (currency : string) (tidEnd : Z)
    (fuel : nat) :
  ∀ tradesFile tidBegin n,
    download_trades fuel srv tradesFile (upper_string currency) tidBegin
      tidEnd n
    = download_trades fuel srv tradesFile currency tidBegin tidEnd n.
Proof.
  induction fuel as [|fuel IH]; intros tradesFile tidBegin n; [done|].
  cbn [download_trades]. rewrite download_trades_body_upper.
  destruct (download_trades_body _ _ _ _ _ _ _) as [[r f' n'|f' tid' n']|];
    [done| |done].
  apply IH.
Qed.

(** ** What a run writes *)

Lemma addTrades_rows (P : Trade → Prop) f trades r f' :
  addTrades f trades = (r, f') →
  Forall P trades →
  ∃ wrote, written f' = written f ++ (row_of <$> wrote) ∧ Forall P wrote.
Proof.
  intros (wrote & [k ->] & Hw)%addTrades_written [Hp _]%Forall_app.
  by exists wrote.
Qed.

Lemma download_trades_body_rows srv currency tidEnd fuel tradesFile tid n p :
  download_trades_body fuel srv tradesFile currency tid tidEnd n = Some p →
  ∃ trades,
    written (pass_file p) = written tradesFile ++ (row_of <$> trades)
    ∧ Forall (λ t, getId t < tidEnd) trades.
Proof.
  unfold download_trades_body. intros H.
  destruct (download_trades_since _ _ _ _ _ _) as [[[page|e] n']|] eqn:Hpage;
    [| |done].
  - pose proof (download_trades_since_inv _ _ _ _ _ _ _ _ Hpage) as [_ _ _ Hmax].
    destruct (_ =? 0).
    { injection H as <-. exists []. by rewrite app_nil_r. }
    destruct (getLast page) as [last|] eqn:Hlast.
    2:{ injection H as <-. exists []. by rewrite app_nil_r. }
    destruct (Hmax last eq_refl) as [_ Hle].
    destruct (Z.ltb_spec (getId last) tidEnd).
    + destruct (addTrades _ _) as [r f'] eqn:E.
      apply (addTrades_rows (λ t, getId t < tidEnd)) in E.
      2:{ apply Forall_forall. intros t Ht. specialize (Hle _ Ht). lia. }
      by destruct r; injection H as <-.
    + destruct (addTrades _ _) as [r f'] eqn:E.
      apply (addTrades_rows (λ t, getId t < tidEnd)) in E.
      2:{ apply Forall_forall. by intros t [? _]%list_elem_of_filter. }
      by injection H as <-.
  - injection H as <-. exists []. by rewrite app_nil_r.
Qed.

(** X9: whatever the server answers, a run only appends rows to what the
    file holds, and every row it appends is a trade whose id is below
    [tidEnd]. *)
Theorem rows_below_end (srv : server) (currency : string) (tidEnd : Z)
    (fuel : nat) :
  ∀ tradesFile tidBegin n r tradesFile' n',
    download_trades fuel srv tradesFile currency tidBegin tidEnd n
    = Some (r, tradesFile', n') →
    ∃ trades,
      written tradesFile' = written tradesFile ++ (row_of <$> trades)
      ∧ Forall (λ t, getId t < tidEnd) trades.
Proof.
  induction fuel as [|fuel IH]; intros tradesFile tidBegin n r tradesFile' n' H;
    [done|].
  cbn [download_trades] in H.
  destruct (download_trades_body _ _ _ _ _ _ _) as [p|] eqn:E; [|done].
  apply download_trades_body_rows in E as (ts & Hw & Hts).
  destruct p as [r0 f0 n0|f0 tid0 n0]; simpl in Hw.
  - injection H as _ <- _. by exists ts.
  - apply IH in H as (ts' & Hw' & Hts').
    exists (ts ++ ts'). split; [|by apply Forall_app].
    by rewrite Hw', Hw, fmap_app, <- app_assoc.
Qed.

Lemma rows_below_end_witness :
  ∃ trades,
    written (with_batch []
               (filter (λ trade, getId trade < 250) (getTrades boundary_page)))
    = written [] ++ (row_of <$> trades)
    ∧ Forall (λ t, getId t < 250) trades.
Proof.
  apply (rows_below_end boundary_server "USD" 250 1 [] 201 0 (Ok ()) _ 1).
  by vm_compute.
Defined.

Lemma Trades_loop_no_primary entries self :
  Forall (λ entry, ∃ p, entry !! "primary" = Some p ∧ p ≠ PyStr "Y") entries →
  Trades_loop entries self = Ok self.
Proof.
  induction 1 as [|e es (p & Hp & Hne) _ IH]; [done|].
  simpl. unfold getitem. rewrite Hp. simpl.
  by rewrite bool_decide_eq_true_2.
Qed.

(** X10: a page without a primary entry ends the download like an empty
    page: when the date of the cursor can be computed and no entry of the
    fetched page is primary, [download_trades_since] hands over a page
    without a trade, and the run is over after that request, without an
    error and with nothing written, be there later trades on the server
    or not. *)
Theorem page_of_mirrors_ends (srv : server) (tradesFile : file)
    (currency : string) (tidBegin tidEnd : Z) (fuel n n' : nat)
    (response : response) (entries : list (gmap string pyval)) :
  is_ok (tid_to_datetime (PyInt tidBegin)) = true →
  download_trades_retry fuel srv currency tidBegin 3 n
  = Some (Ok response, n') →
  return_member response = Some entries →
  Forall (λ entry, ∃ p, entry !! "primary" = Some p ∧ p ≠ PyStr "Y") entries →
  download_trades_since fuel srv currency tidBegin 3 n
  = Some (Ok {| getFirst := None; getLast := None; getTrades := [] |}, n')
  ∧ download_trades fuel srv tradesFile currency tidBegin tidEnd n
    = Some (Ok (), tradesFile, n').
Proof.
  intros Hdate Hloop Hret Hnone.
  pose proof (Trades_loop_no_primary entries
                {| getFirst := None; getLast := None; getTrades := [] |} Hnone)
    as Hinit.
  fold (Trades_init entries) in Hinit.
  assert (Hsince :
    download_trades_since fuel srv currency tidBegin 3 n
    = Some (Ok {| getFirst := None; getLast := None; getTrades := [] |}, n')).
  { unfold download_trades_since.
    destruct (tid_to_datetime (PyInt tidBegin)); [|done].
    by rewrite Hloop, Hret, Hinit. }
  split; [done|].
  destruct fuel as [|fuel]; [done|].
  cbn [download_trades]. unfold download_trades_body. by rewrite Hsince.
Qed.

(** A server whose first page holds mirrored entries only. *)
Lemma page_of_mirrors_ends_witness :
  download_trades_since 1
    (mock_server 1 [entry 100 "EUR" 9500000 100000000 "bid" "N";
                    entry 200 "USD" 1250000 100000000 "bid" "Y"])
    "USD" 100 3 0
  = Some (Ok {| getFirst := None; getLast := None; getTrades := [] |}, 1%nat)
  ∧ download_trades 1
      (mock_server 1 [entry 100 "EUR" 9500000 100000000 "bid" "N";
                      entry 200 "USD" 1250000 100000000 "bid" "Y"])
      [] "USD" 100 300 0
    = Some (Ok (), [], 1%nat).
Proof.
  apply (page_of_mirrors_ends _ [] "USD" 100 300 1 0 1
           {| result_member := Some (PyStr "success");
              return_member :=
                Some [entry 100 "EUR" 9500000 100000000 "bid" "N"] |}
           [entry 100 "EUR" 9500000 100000000 "bid" "N"]).
  - by vm_compute.
  - by vm_compute.
  - done.
  - apply Forall_cons_2; [|apply Forall_nil_2].
    exists (PyStr "N"). split; [by vm_compute | done].
Defined.

(** X11: an empty range yields no row: against a server that answers
    forward, a run with [tidEnd <= tidBegin] that ends has written
    nothing. *)
Theorem empty_range_writes_nothing (srv : server) (tradesFile : file)
    (currency : string) (tidBegin tidEnd : Z) (fuel n n' : nat)
    (r : result ()) (tradesFile' : file) :
  forward srv →
  tidEnd ≤ tidBegin →
  download_trades fuel srv tradesFile currency tidBegin tidEnd n
  = Some (r, tradesFile', n') →
  written tradesFile' = written tradesFile.
Proof.
  intros Hfw Hle Hrun. destruct fuel as [|fuel]; [done|].
  cbn [download_trades] in Hrun.
  destruct (download_trades_body _ _ _ _ _ _ _) as [p|] eqn:E; [|done].
  destruct p as [r0 f0 n0|f0 tid0 n0].
  - injection Hrun as _ <- _. unfold download_trades_body in E.
    destruct (download_trades_since _ _ _ _ _ _) as [[[page|e] m]|] eqn:Hpage;
      [| |done].
    + pose proof (download_trades_since_forward _ _ _ _ _ _ _ _ Hfw Hpage)
        as Hge.
      destruct (_ =? 0); [by injection E as _ <- _|].
      destruct (getLast page) as [last|] eqn:Hlast;
        [|by injection E as _ <- _].
      pose proof (download_trades_since_inv _ _ _ _ _ _ _ _ Hpage)
        as [_ _ _ Hmax].
      destruct (Hmax _ Hlast) as [Hin _].
      pose proof (proj1 (Forall_forall _ _) Hge _ Hin) as Hlast_ge.
      simpl in Hlast_ge.
      destruct (Z.ltb_spec (getId last) tidEnd); [lia|].
      rewrite filter_none in E.
      2:{ eapply Forall_impl; [exact Hge|]. simpl. lia. }
      injection E as _ <- _. simpl. rewrite written_app. simpl.
      by rewrite app_nil_r.
    + by injection E as _ <- _.
  - apply download_trades_body_next in E
      as (page & last & Hpage & Hlast & Hlt & _ & _).
    pose proof (download_trades_since_inv _ _ _ _ _ _ _ _ Hpage) as [_ _ _ Hmax].
    destruct (Hmax _ Hlast) as [Hin _].
    pose proof (download_trades_since_forward _ _ _ _ _ _ _ _ Hfw Hpage) as Hge.
    rewrite Forall_forall in Hge. specialize (Hge _ Hin). lia.
Qed.

Lemma empty_range_writes_nothing_witness :
  download_trades 3 boundary_server [] "USD" 250 201 0
  = Some (Ok (), with_batch [] [], 1%nat)
  ∧ written (with_batch [] []) = written [].
Proof.
  split; [by vm_compute|].
  apply (empty_range_writes_nothing boundary_server [] "USD" 250 201 3 0 1
           (Ok ())).
  - apply mock_server_forward.
  - lia.
  - by vm_compute.
Defined.

(** ** The range calculators *)

Lemma datetime_datetime_ok year month day d :
  datetime_datetime year month day = Ok d →
  d = {| civil_year := year; civil_month := month; civil_day := day |}
  ∧ MINYEAR ≤ year ≤ MAXYEAR ∧ 1 ≤ month ≤ 12
  ∧ 1 ≤ day ≤ days_in_month year month.
Proof.
  unfold datetime_datetime.
  destruct (fits_int year && fits_int month && fits_int day); simpl; [|done].
  destruct (Z.leb_spec MINYEAR year), (Z.leb_spec year MAXYEAR); simpl;
    try done.
  destruct (Z.leb_spec 1 month), (Z.leb_spec month 12); simpl; try done.
  destruct (Z.leb_spec 1 day), (Z.leb_spec day (days_in_month year month));
    simpl; try done.
  intros [= <-]. repeat split; lia.
Qed.

(** What [datetime.datetime] raises on a date that is not of the
    calendar. *)
Lemma datetime_datetime_invalid year month day :
  ¬ (MINYEAR ≤ year ≤ MAXYEAR ∧ 1 ≤ month ≤ 12
     ∧ 1 ≤ day ≤ days_in_month year month) →
  ∃ e, datetime_datetime year month day = Raise e
       ∧ if fits_int year && fits_int month && fits_int day
         then ∃ msg, e = ValueError msg
         else e = OverflowError.
Proof.
  intros Hbad. unfold datetime_datetime.
  destruct (fits_int year && fits_int month && fits_int day); simpl;
    [|by eexists].
  destruct (Z.leb_spec MINYEAR year), (Z.leb_spec year MAXYEAR); simpl;
    try by (eexists; split; [|eexists]).
  destruct (Z.leb_spec 1 month), (Z.leb_spec month 12); simpl;
    try by (eexists; split; [|eexists]).
  destruct (Z.leb_spec 1 day), (Z.leb_spec day (days_in_month year month));
    simpl; try by (eexists; split; [|eexists]).
  lia.
Qed.

Lemma fits_int_succ year :
  MINYEAR ≤ year ≤ MAXYEAR → fits_int (year + 1) = true.
Proof.
  unfold MINYEAR, MAXYEAR, fits_int. intros H.
  apply andb_true_iff. split; apply Z.leb_le; lia.
Qed.

Section range_properties.
Context (as_utc : civil → result civil)
        (datetime_to_timestamp : civil → result Z).

Local Abbreviation to_tid := (datetime_to_tid as_utc datetime_to_timestamp).

Lemma range_ok (begin : result civil) (end_ : civil → result civil)
    (tidBegin tidEnd : Z) :
  (b ← begin; e ← end_ b; tb ← to_tid b; te ← to_tid e; mret (tb, te))
  = Ok (tidBegin, tidEnd) →
  ∃ b e, begin = Ok b ∧ end_ b = Ok e
         ∧ to_tid b = Ok tidBegin ∧ to_tid e = Ok tidEnd.
Proof.
  destruct begin as [b|]; simpl; [|done].
  destruct (end_ b) as [e|] eqn:Hend; simpl; [|done].
  destruct (to_tid b) as [tb|] eqn:Hb; simpl; [|done].
  destruct (to_tid e) as [te|] eqn:He; simpl; [|done].
  intros H. injection H as <- <-. by exists b, e.
Qed.

(** X12: a date that is not of the calendar is refused before anything
    is done: for a year outside 1..9998, a month outside 1..12 or a day
    that the month does not have, the entry point raises without opening
    the file and without a request; what it raises is [ValueError] when
    the numbers it was given fit a C [int], and [OverflowError] when one
    of them does not. *)
Theorem invalid_date_refused (fuel : nat) (srv : server) (currency : string)
    (csvFile : string) (n : nat) (year month day : Z) :
  (¬ (1 ≤ year ≤ 9998) →
   ∃ e, download_trades_by_year as_utc datetime_to_timestamp fuel srv
          currency year csvFile n
        = Some (Raise e, [], n)
        ∧ if fits_int year then ∃ msg, e = ValueError msg
          else e = OverflowError)
  ∧ (¬ (1 ≤ month ≤ 12) →
     ∃ e, download_trades_by_month as_utc datetime_to_timestamp fuel srv
            currency year month csvFile n
          = Some (Raise e, [], n)
          ∧ if fits_int year && fits_int month then ∃ msg, e = ValueError msg
            else e = OverflowError)
  ∧ (¬ (1 ≤ day ≤ days_in_month year month) →
     ∃ e, download_trades_by_day as_utc datetime_to_timestamp fuel srv
            currency year month day csvFile n
          = Some (Raise e, [], n)
          ∧ if fits_int year && fits_int month && fits_int day
            then ∃ msg, e = ValueError msg
            else e = OverflowError).
Proof.
  split; [|split]; intros Hbad.
  - unfold download_trades_by_year, year_range.
    destruct (datetime_datetime year 1 1) as [b|e] eqn:Eb.
    + apply datetime_datetime_ok in Eb as (_ & Hy & _).
      destruct (datetime_datetime_invalid (year + 1) 1 1) as (e & -> & He).
      { unfold MINYEAR, MAXYEAR in *. lia. }
      exists e. split; [done|].
      rewrite (fits_int_succ year Hy) in He. simpl in He.
      replace (fits_int year) with true; [done|].
      symmetry. unfold MINYEAR, MAXYEAR, fits_int in *.
      apply andb_true_iff. split; apply Z.leb_le; lia.
    + destruct (datetime_datetime_invalid year 1 1) as (e' & Hmsg & He).
      { intros H. unfold MINYEAR, MAXYEAR in *.
        assert (year = 9999) as -> by lia. done. }
      rewrite Hmsg in Eb. injection Eb as <-. exists e'. split; [done|].
      by rewrite !andb_true_r in He.
  - unfold download_trades_by_month, month_range.
    destruct (datetime_datetime_invalid year month 1) as (e & -> & He);
      [tauto|].
    exists e. split; [done|]. by rewrite andb_true_r in He.
  - unfold download_trades_by_day, day_range.
    destruct (datetime_datetime_invalid year month day) as (e & -> & He);
      [tauto|].
    by exists e.
Qed.

(** X13: the months tile the year: the range of a month ends where the
    range of the next month begins, that of December where the next year
    begins, and the range of a year has the bounds of its January and
    its December. *)
Theorem months_tile_the_year (year month tidBegin tidEnd : Z) :
  month_range as_utc datetime_to_timestamp year month
  = Ok (tidBegin, tidEnd) →
  (∀ b e, month < 12 →
     month_range as_utc datetime_to_timestamp year (month + 1) = Ok (b, e) →
     b = tidEnd)
  ∧ (∀ b e, month = 12 →
       month_range as_utc datetime_to_timestamp (year + 1) 1 = Ok (b, e) →
       b = tidEnd)
  ∧ (∀ b e, year_range as_utc datetime_to_timestamp year = Ok (b, e) →
       (month = 1 → b = tidBegin) ∧ (month = 12 → e = tidEnd)).
Proof.
  unfold month_range, year_range.
  intros (cb & ce & Hcb & Hce & Hb & He)%range_ok.
  apply datetime_datetime_ok in Hcb as (-> & _ & Hm & _).
  split; [|split].
  - intros b e Hlt (cb' & _ & Hcb' & _ & Hb' & _)%range_ok.
    apply datetime_datetime_ok in Hcb' as (-> & _).
    replace (month =? 12) with false in Hce by (symmetry; apply Z.eqb_neq; lia).
    apply datetime_datetime_ok in Hce as (-> & _). congruence.
  - intros b e -> (cb' & _ & Hcb' & _ & Hb' & _)%range_ok.
    apply datetime_datetime_ok in Hcb' as (-> & _).
    simpl in Hce. apply datetime_datetime_ok in Hce as (-> & _). congruence.
  - intros b e (cb' & ce' & Hcb' & Hce' & Hb' & He')%range_ok.
    apply datetime_datetime_ok in Hcb' as (-> & _).
    apply datetime_datetime_ok in Hce' as (-> & _).
    split; intros ->; [congruence|].
    simpl in Hce. apply datetime_datetime_ok in Hce as (-> & _). congruence.
Qed.

(** X14: the days tile the month: the range of a day ends where the
    range of the next day of the month begins, that of the last day of a
    month where the range of the month ends, and the range of the first
    day begins where the range of the month begins. *)
Theorem days_tile_the_month (year month day tidBegin tidEnd : Z) :
  day_range as_utc datetime_to_timestamp year month day
  = Ok (tidBegin, tidEnd) →
  (∀ b e, day < days_in_month year month →
     day_range as_utc datetime_to_timestamp year month (day + 1) = Ok (b, e) →
     b = tidEnd)
  ∧ (∀ b e, month_range as_utc datetime_to_timestamp year month = Ok (b, e) →
       (day = 1 → b = tidBegin)
       ∧ (day = days_in_month year month → e = tidEnd)).
Proof.
  unfold day_range, month_range.
  intros (cb & ce & Hcb & Hce & Hb & He)%range_ok.
  apply datetime_datetime_ok in Hcb as (-> & Hy & Hm & Hd).
  unfold add_one_day in Hce. simpl in Hce.
  split.
  - intros b e Hlt (cb' & _ & Hcb' & _ & Hb' & _)%range_ok.
    apply datetime_datetime_ok in Hcb' as (-> & _).
    apply Z.ltb_lt in Hlt. rewrite Hlt in Hce. injection Hce as <-. congruence.
  - intros b e (cb' & ce' & Hcb' & Hce' & Hb' & He')%range_ok.
    apply datetime_datetime_ok in Hcb' as (-> & _).
    split; intros Heq; [subst day; congruence|].
    rewrite Heq, Z.ltb_irrefl in Hce.
    destruct (Z.eqb_spec month 12) as [->|Hne].
    + simpl in Hce. apply datetime_datetime_ok in Hce' as (-> & Hy' & _).
      replace (year <? MAXYEAR) with true in Hce
        by (symmetry; apply Z.ltb_lt; unfold MAXYEAR in *; lia).
      injection Hce as <-. congruence.
    + apply datetime_datetime_ok in Hce' as (-> & _).
      replace (month <? 12) with true in Hce by (symmetry; apply Z.ltb_lt; lia).
      injection Hce as <-. congruence.
Qed.
End range_properties.

Lemma invalid_date_refused_witness :
  (∃ msg, download_trades_by_month (λ d, Ok d) utc_midnight_timestamp 4
            dead_server "USD" 2013 13 "trades.csv" 0
          = Some (Raise (ValueError msg), [], 0%nat))
  ∧ download_trades_by_month (λ d, Ok d) utc_midnight_timestamp 4
      dead_server "USD" 2013 4294967297 "trades.csv" 0
    = Some (Raise OverflowError, [], 0%nat).
Proof.
  split.
  - destruct (invalid_date_refused (λ d, Ok d) utc_midnight_timestamp 4
                dead_server "USD" "trades.csv" 0 2013 13 1) as (_ & H & _).
    destruct H as (e & Hrun & msg & ->); [lia|]. by exists msg.
  - destruct (invalid_date_refused (λ d, Ok d) utc_midnight_timestamp 4
                dead_server "USD" "trades.csv" 0 2013 4294967297 1)
      as (_ & H & _).
    destruct H as (e & Hrun & ->); [lia|]. exact Hrun.
Defined.

Lemma months_tile_the_year_witness :
  month_range (λ d, Ok d) utc_midnight_timestamp 2013 3
  = Ok (1362096000000000, 1364774400000000)
  ∧ ∀ b e, month_range (λ d, Ok d) utc_midnight_timestamp 2013 4 = Ok (b, e) →
      b = 1364774400000000.
Proof.
  split; [by vm_compute|]. intros b e.
  destruct (months_tile_the_year (λ d, Ok d) utc_midnight_timestamp 2013 3
              1362096000000000 1364774400000000) as (H & _ & _);
    [by vm_compute|].
  apply H. lia.
Defined.

Lemma days_tile_the_month_witness :
  day_range (λ d, Ok d) utc_midnight_timestamp 2012 2 29
  = Ok (1330473600000000, 1330560000000000)
  ∧ ∀ b e, month_range (λ d, Ok d) utc_midnight_timestamp 2012 2 = Ok (b, e) →
      e = 1330560000000000.
Proof.
  split; [by vm_compute|]. intros b e Hmonth.
  destruct (days_tile_the_month (λ d, Ok d) utc_midnight_timestamp 2012 2 29
              1330473600000000 1330560000000000) as (_ & H);
    [by vm_compute|].
  destruct (H b e Hmonth) as [_ Hlast]. apply Hlast. by vm_compute.
Defined.

(** ** The sign of a price *)

Lemma binary_round_aux_opp s m e l :
  binary_round_aux prec emax (negb s) m e l
  = SFopp (binary_round_aux prec emax s m e l).
Proof.
  unfold binary_round_aux.
  destruct (shr_fexp prec emax m e l) as [mrs' e'].
  destruct (shr_fexp prec emax _ e' loc_Exact) as [mrs'' e''].
  destruct (shr_m mrs''); [done| |done].
  by destruct (e'' <=? emax - prec).
Qed.

Lemma Z2F_opp z : z ≠ 0 → Z2F (- z) = SFopp (Z2F z).
Proof.
  intros Hz. destruct z as [|p|p]; [done| |]; unfold Z2F; simpl;
    unfold binary_round; destruct (shl_align _ _ _) as [mz ez].
  - apply (binary_round_aux_opp false).
  - change false with (negb true). rewrite binary_round_aux_opp.
    by destruct (binary_round_aux prec emax true (Z.pos mz) ez loc_Exact).
Qed.

Lemma fmul_opp x y : fmul (SFopp x) y = SFopp (fmul x y).
Proof.
  unfold fmul.
  destruct x as [sx|sx| |sx mx ex], y as [sy|sy| |sy my ey]; simpl;
    try done; try (by destruct sx, sy).
  rewrite <- binary_round_aux_opp. by destruct sx, sy.
Qed.

Lemma float_of_int_opp z :
  z ≠ 0 →
  float_of_int (- z) = (x ← float_of_int z; mret (SFopp x)).
Proof.
  intros Hz. unfold float_of_int. rewrite (Z2F_opp z Hz).
  by destruct (Z2F z).
Qed.

(** X15: prices and amounts are odd in the integer: the price of [-v]
    is the negated price of [v] for every currency, and so is the
    amount, overflow included. *)
Theorem price_of_negated_int (c : string) (v : Z) :
  v ≠ 0 →
  from_value_int (PyStr c) (PyInt (- v))
  = (x ← from_value_int (PyStr c) (PyInt v); mret (SFopp x))
  ∧ from_amount_int (PyInt (- v))
    = (x ← from_amount_int (PyInt v); mret (SFopp x)).
Proof.
  intros Hv. split.
  - rewrite !from_value_int_scale. simpl. rewrite (float_of_int_opp v Hv).
    destruct (float_of_int v) as [x|]; simpl; [|done].
    by rewrite fmul_opp.
  - unfold from_amount_int. simpl. rewrite (float_of_int_opp v Hv).
    destruct (float_of_int v) as [x|]; simpl; [|done].
    by rewrite fmul_opp.
Qed.

Lemma price_of_negated_int_witness :
  from_value_int (PyStr "USD") (PyInt (- 1250000))
  = (x ← from_value_int (PyStr "USD") (PyInt 1250000); mret (SFopp x)).
Proof. apply (price_of_negated_int "USD" 1250000). lia. Defined.
